(** * VotoFlow: filtering, analytics, live stream and marker classification

    A shallow embedding of the computational core of the VotoFlow dashboard:

    - [App.tsx]: [filteredData], [analytics] and the live-simulation tick;
    - [components/VoteMap.tsx]: [PARTY_COLORS], [stats] and [getVisuals];
    - [utils/csvParser.ts] ([aggregateByLocation]) is not among the sources
      and is modelled from the specification.

    Vote counts are integers ([Z]): sums and comparisons of integers are
    exact in JavaScript as long as the magnitudes stay below [2^53].
    Wherever the source leaves the integers (a division, a square root, a
    product with a decimal literal) the computation is done on binary64
    numbers, as JavaScript does, with the primitive floats of the standard
    library.  A JavaScript object used as a string-keyed mapping is a list
    of own properties in creation order; the totals of the analytics, which
    start as [{}] and inherit from [Object.prototype], are the code's on the
    entries that [exact_tally] describes, where the binary64 sums of the
    code are the sums of the integers ([accumulated_exact]).  Strings are
    sequences of UTF-8 bytes.  *)

From Stdlib Require Import ZArith NArith QArith List String Ascii Bool Lia Floats.
From Stdlib Require Import Sorted Permutation.
Import ListNotations.

#[local] Set Warnings "-inexact-float".
#[local] Open Scope string_scope.
#[local] Open Scope list_scope.
#[local] Open Scope Z_scope.

(* ================================================================= *)
(** * Part I: the program *)

(* ----------------------------------------------------------------- *)
(** ** JavaScript numbers *)

Module JSNumber.

(** The Number value of the integer [z]: the binary64 number nearest to
    it (ties to even), which is [z] itself when [|z| < 2^53]. *)
Definition num (z : Z) : float :=
  SF2Prim (binary_normalize prec emax z 0 false).

(** [Math.min(x, y)]: NaN when an argument is NaN, and [-0] below [+0]. *)
Definition Math_min (x y : float) : float :=
  if is_nan x || is_nan y then nan
  else if (x <? y)%float then x
  else if (y <? x)%float then y
  else if get_sign x then x else y.

(** One step of [Math.max]: NaN when an argument is NaN, [+0] above [-0]. *)
Definition Math_max2 (x y : float) : float :=
  if is_nan x || is_nan y then nan
  else if (x <? y)%float then y
  else if (y <? x)%float then x
  else if get_sign x then y else x.

(** [Math.max(...xs)]: the arguments are folded from [-Infinity]. *)
Definition Math_max (xs : list float) : float :=
  fold_left Math_max2 xs neg_infinity.

(** [x > y] on Numbers. *)
Definition gt (x y : float) : bool := (y <? x)%float.

(** [x || 0] where [x] is a Number or [undefined]: [undefined], the two
    zeros and NaN are falsy. *)
Definition or_zero (x : option float) : float :=
  match x with
  | None => 0%float
  | Some x => if (x =? 0)%float || is_nan x then 0%float else x
  end.

End JSNumber.

(* ----------------------------------------------------------------- *)
(** ** JavaScript strings *)

Module JSString.

Fixpoint starts_with (p s : string) : bool :=
  match p, s with
  | EmptyString, _ => true
  | String _ _, EmptyString => false
  | String a p', String b s' => Ascii.eqb a b && starts_with p' s'
  end.

(** [s.includes(needle)]. *)
Fixpoint includes (s needle : string) : bool :=
  starts_with needle s
  || match s with
     | EmptyString => false
     | String _ s' => includes s' needle
     end.

(** [s.split(sep)] for a one-character separator: never empty, and
    adjacent separators give empty pieces. *)
Fixpoint split (sep : ascii) (s : string) : list string :=
  match s with
  | EmptyString => [EmptyString]
  | String c s' =>
      if Ascii.eqb c sep then EmptyString :: split sep s'
      else match split sep s' with
           | [] => [String c EmptyString]
           | w :: ws => String c w :: ws
           end
  end.

(** [x || d] where [x] is a string or [undefined]: the empty string and
    [undefined] are falsy. *)
Definition or_else (x : option string) (d : string) : string :=
  match x with
  | Some s => if String.eqb s "" then d else s
  | None => d
  end.

(** [String(x)] of a string or [undefined], as [includes] coerces its
    argument. *)
Definition to_string (x : option string) : string :=
  match x with
  | Some s => s
  | None => "undefined"
  end.

End JSString.

(* ----------------------------------------------------------------- *)
(** ** JavaScript objects used as [Record<string, number>] *)

Module JSObject.

(** Own properties, in creation order; a key occurs once ([wf]).  The values
    are integers.  An object literal inherits from [Object.prototype], so a
    read of a key that is not an own property finds the inherited value when
    the key is one of [Object_prototype_keys], and [undefined] otherwise;
    [get] is the read of an own property. *)
Definition t := list (string * Z).

(** The property names of [Object.prototype]. *)
Definition Object_prototype_keys : list string :=
  [ "constructor"; "__defineGetter__"; "__defineSetter__"; "hasOwnProperty";
    "__lookupGetter__"; "__lookupSetter__"; "isPrototypeOf";
    "propertyIsEnumerable"; "toString"; "valueOf"; "__proto__";
    "toLocaleString" ].

(** The key names no property of [Object.prototype]: in an object that has
    no own property [k], [o[k]] is [undefined]. *)
Definition own_key (k : string) : bool :=
  negb (existsb (String.eqb k) Object_prototype_keys).

Definition keys (o : t) : list string := map fst o.
Definition wf (o : t) : Prop := NoDup (keys o).

(** [o[k]], [None] for [undefined]. *)
Fixpoint get (o : t) (k : string) : option Z :=
  match o with
  | [] => None
  | (k', v) :: o' => if String.eqb k k' then Some v else get o' k
  end.

(** [(o[k] || 0)]: [undefined] and [0] are falsy. *)
Definition get_or0 (o : t) (k : string) : Z :=
  match get o k with
  | Some v => v
  | None => 0
  end.

(** [o[k] = v]: an existing property keeps its place, a new one is
    created last. *)
Fixpoint set (o : t) (k : string) (v : Z) : t :=
  match o with
  | [] => [(k, v)]
  | (k', v') :: o' =>
      if String.eqb k k' then (k', v) :: o' else (k', v') :: set o' k v
  end.

Definition digit (c : ascii) : option N :=
  let n := N_of_ascii c in
  if ((48 <=? n) && (n <=? 57))%N then Some (n - 48)%N else None.

Fixpoint parse_digits (s : string) (acc : N) : option N :=
  match s with
  | EmptyString => Some acc
  | String c s' =>
      match digit c with
      | Some d => parse_digits s' (10 * acc + d)%N
      | None => None
      end
  end.

(** A key is an array index when it is the canonical decimal form of an
    integer in [0, 2^32 - 2]. *)
Definition array_index (k : string) : option N :=
  match k with
  | EmptyString => None
  | String c rest =>
      if Ascii.eqb c "0"
      then match rest with EmptyString => Some 0%N | _ => None end
      else match parse_digits k 0 with
           | Some n => if (n <? 4294967295)%N then Some n else None
           | None => None
           end
  end.

Definition is_index (e : string * Z) : bool :=
  match array_index (fst e) with Some _ => true | None => false end.

Definition index_of (e : string * Z) : N :=
  match array_index (fst e) with Some n => n | None => 0%N end.

Fixpoint insert_index (e : string * Z) (l : list (string * Z)) :=
  match l with
  | [] => [e]
  | x :: l' =>
      if (index_of x <? index_of e)%N then x :: insert_index e l'
      else e :: l
  end.

Definition sort_index (l : list (string * Z)) : list (string * Z) :=
  fold_right insert_index [] l.

(** [Object.entries(o)]: the array-index keys first, in ascending numeric
    order, then the other keys in creation order (OrdinaryOwnPropertyKeys). *)
Definition entries (o : t) : list (string * Z) :=
  sort_index (filter is_index o) ++ filter (fun e => negb (is_index e)) o.

Definition values_sum (o : t) : Z :=
  fold_right (fun e acc => snd e + acc) 0 o.

End JSObject.

(* ----------------------------------------------------------------- *)
(** ** Data model *)

(** Modelled from the spec: [types.ts] is not among the sources; the fields
    are those of section 3 (VoteRecord), with the names [App.tsx] uses for
    [partyName] and [candidateName]. *)
Record VoteRecord := {
  locationName : string;
  recordParent : string;
  recordLat : float;
  recordLng : float;
  partyName : string;
  candidateName : string;
  voteCount : Z
}.

(** Modelled from the spec: [types.ts] is not among the sources; the fields
    are those read by [App.tsx] and [VoteMap.tsx] ([name], [parentLocation],
    [lat], [lng], [totalVotes], [parties], [candidates], [winningParty]). *)
Record LocationData := {
  name : string;
  parentLocation : string;
  lat : float;
  lng : float;
  totalVotes : Z;
  parties : JSObject.t;
  candidates : JSObject.t;
  winningParty : string
}.

(** Modelled from the spec: [types.ts] is not among the sources; the fields
    are those of the initial state in [App.tsx]. *)
Record FilterState := {
  minVotes : Z;
  party : string;
  candidate : string
}.

(** Modelled from the spec: [types.ts] is not among the sources; the three
    literals are those [App.tsx] passes to [setViewMode]. *)
Inductive ViewMode := heatmap | party_mode | audit.

(** The sentinel of the two select boxes. *)
Definition ALL : string := "ALL".

(** [useState<FilterState>({ minVotes: 0, party: 'ALL', candidate: 'ALL' })]. *)
Definition default_filters : FilterState :=
  {| minVotes := 0; party := ALL; candidate := ALL |}.

(** The key of a polling location: its name and its parent area. *)
Definition location_key (l : LocationData) : string * string :=
  (name l, parentLocation l).

Definition sum_totalVotes (data : list LocationData) : Z :=
  fold_right (fun l acc => totalVotes l + acc) 0 data.

(* ----------------------------------------------------------------- *)
(** ** Aggregator *)

Module Aggregator.

(** Modelled from the spec: [utils/csvParser.ts] is not among the sources.
    Section 4.1: records are grouped by location key (name and parent
    location); a new key opens a group. *)
Definition same_location (r : VoteRecord) (l : LocationData) : bool :=
  String.eqb (locationName r) (name l)
  && String.eqb (recordParent r) (parentLocation l).

(** Modelled from the spec: [utils/csvParser.ts] is not among the sources.
    Section 4.1: the vote count of a record is summed into the party
    mapping, the candidate mapping and [totalVotes] of its group. *)
Definition add_record (r : VoteRecord) (l : LocationData) : LocationData :=
  {| name := name l;
     parentLocation := parentLocation l;
     lat := lat l;
     lng := lng l;
     totalVotes := totalVotes l + voteCount r;
     parties :=
       JSObject.set (parties l) (partyName r)
         (JSObject.get_or0 (parties l) (partyName r) + voteCount r);
     candidates :=
       JSObject.set (candidates l) (candidateName r)
         (JSObject.get_or0 (candidates l) (candidateName r) + voteCount r);
     winningParty := winningParty l |}.

(** Modelled from the spec: [utils/csvParser.ts] is not among the sources.
    The empty group of the location of [r]. *)
Definition empty_location (r : VoteRecord) : LocationData :=
  {| name := locationName r;
     parentLocation := recordParent r;
     lat := recordLat r;
     lng := recordLng r;
     totalVotes := 0;
     parties := [];
     candidates := [];
     winningParty := "" |}.

(** Modelled from the spec: [utils/csvParser.ts] is not among the sources.
    Section 4.1: each location key appears exactly once in the output. *)
Fixpoint upsert (r : VoteRecord) (acc : list LocationData) : list LocationData :=
  match acc with
  | [] => [add_record r (empty_location r)]
  | l :: rest =>
      if same_location r l then add_record r l :: rest
      else l :: upsert r rest
  end.

(** Modelled from the spec: [utils/csvParser.ts] is not among the sources.
    Section 4.1: the party with the maximum summed value, the first one
    inserted among equals. *)
Fixpoint argmax (o : JSObject.t) (best : option (string * Z)) : option (string * Z) :=
  match o with
  | [] => best
  | (k, v) :: o' =>
      match best with
      | Some (_, bv) => if bv <? v then argmax o' (Some (k, v)) else argmax o' best
      | None => argmax o' (Some (k, v))
      end
  end.

(** Modelled from the spec: [utils/csvParser.ts] is not among the sources.
    Section 4.1: [winningParty] is derived from the party mapping. *)
Definition with_winner (l : LocationData) : LocationData :=
  {| name := name l;
     parentLocation := parentLocation l;
     lat := lat l;
     lng := lng l;
     totalVotes := totalVotes l;
     parties := parties l;
     candidates := candidates l;
     winningParty :=
       match argmax (parties l) None with
       | Some (k, _) => k
       | None => ""
       end |}.

(** Modelled from the spec: [utils/csvParser.ts] is not among the sources.
    Section 4.1: [aggregate(records) -> sequence of LocationData]; an empty
    input gives an empty output. *)
Definition aggregateByLocation (records : list VoteRecord) : list LocationData :=
  map with_winner (fold_left (fun acc r => upsert r acc) records []).

End Aggregator.

(* ----------------------------------------------------------------- *)
(** ** [App.tsx]: filter engine *)

(** [d => (d.parties[filters.party] || 0) > 0]. *)
Definition has_party (p : string) (d : LocationData) : bool :=
  0 <? JSObject.get_or0 (parties d) p.

(** [d => (d.candidates[filters.candidate] || 0) > 0]. *)
Definition has_candidate (c : string) (d : LocationData) : bool :=
  0 <? JSObject.get_or0 (candidates d) c.

(** [d => d.totalVotes >= filters.minVotes]. *)
Definition reaches (m : Z) (d : LocationData) : bool :=
  m <=? totalVotes d.

(** The three stages of [filteredData], each a function on the sequence. *)
Definition party_stage (filters : FilterState) (data : list LocationData) :=
  if negb (String.eqb (party filters) ALL)
  then filter (has_party (party filters)) data
  else data.

Definition candidate_stage (filters : FilterState) (data : list LocationData) :=
  if negb (String.eqb (candidate filters) ALL)
  then filter (has_candidate (candidate filters)) data
  else data.

Definition minVotes_stage (filters : FilterState) (data : list LocationData) :=
  filter (reaches (minVotes filters)) data.

(** [filteredData], [App.tsx] lines 64-81. *)
Definition filteredData (aggregatedData : list LocationData)
    (filters : FilterState) : list LocationData :=
  let data := aggregatedData in
  let data := party_stage filters data in
  let data := candidate_stage filters data in
  let data := minVotes_stage filters data in
  data.

(* ----------------------------------------------------------------- *)
(** ** [App.tsx]: analytics *)

(** [filters.party === 'ALL' || filters.party === p]. *)
Definition selected (sel k : string) : bool :=
  String.eqb sel ALL || String.eqb sel k.

(** [totals[k] = (totals[k] || 0) + v], under the guard of the selection.
    The totals start as [{}]: the read is that of an own property, and the
    sum is that of the integers, which is what the code computes on the
    entries that [exact_tally] describes (no key of [Object.prototype], and
    sums that binary64 holds exactly: [accumulated] is the sum in binary64,
    and the two agree there). *)
Definition tally (sel : string) (totals : JSObject.t) (e : string * Z) : JSObject.t :=
  if selected sel (fst e)
  then JSObject.set totals (fst e) (JSObject.get_or0 totals (fst e) + snd e)
  else totals.

(** [Object.entries(o).forEach(...)] into [totals]. *)
Definition tally_object (sel : string) (totals o : JSObject.t) : JSObject.t :=
  fold_left (tally sel) (JSObject.entries o) totals.

(** The body of [filteredData.forEach(loc => ...)] on the pair
    [(partyTotals, candidateTotals)]. *)
Definition tally_location (filters : FilterState)
    (st : JSObject.t * JSObject.t) (loc : LocationData) : JSObject.t * JSObject.t :=
  (tally_object (party filters) (fst st) (parties loc),
   tally_object (candidate filters) (snd st) (candidates loc)).

Definition totals_of (filters : FilterState) (visible : list LocationData)
  : JSObject.t * JSObject.t :=
  fold_left (tally_location filters) visible ([], []).

(** [xs.sort((a, b) => b[1] - a[1])]: the sort is stable, so an entry is
    put, among the entries after it, before the first one whose value is
    not strictly greater than its own. *)
Fixpoint insert_desc (e : string * Z) (l : list (string * Z)) : list (string * Z) :=
  match l with
  | [] => [e]
  | x :: l' => if snd e <? snd x then x :: insert_desc e l' else e :: l
  end.

Definition sort_desc (l : list (string * Z)) : list (string * Z) :=
  fold_right insert_desc [] l.

(** [Object.entries(totals).sort((a,b) => b[1] - a[1]).slice(0, 5)]. *)
Definition top5 (totals : JSObject.t) : list (string * Z) :=
  firstn 5 (sort_desc (JSObject.entries totals)).

Record Analytics := {
  topParties : list (string * Z);
  topCandidates : list (string * Z)
}.

(** [analytics], [App.tsx] lines 84-109, over the filtered view. *)
Definition analytics (visible : list LocationData) (filters : FilterState) : Analytics :=
  let st := totals_of filters visible in
  {| topParties := top5 (fst st); topCandidates := top5 (snd st) |}.

(** [summarize]: the leaderboards of the view the filters select. *)
Definition summarize (aggregatedData : list LocationData) (filters : FilterState) : Analytics :=
  analytics (filteredData aggregatedData filters) filters.

(* ----------------------------------------------------------------- *)
(** ** [App.tsx]: simulated live stream *)

(** What one location draws from [Math.random()] in a tick: whether
    [Math.random() > 0.7] held and, when it did, the value of
    [Math.floor(Math.random() * 5)]. *)
Record Draw := {
  hit : bool;
  increase : Z
}.

(** [Math.random()] lies in [[0, 1)], so the floor lies in [{0, ..., 4}]. *)
Definition draw_ok (d : Draw) : Prop := 0 <= increase d <= 4.

(** [{ ...loc, totalVotes: loc.totalVotes + increase }]. *)
Definition bump (loc : LocationData) (k : Z) : LocationData :=
  {| name := name loc;
     parentLocation := parentLocation loc;
     lat := lat loc;
     lng := lng loc;
     totalVotes := totalVotes loc + k;
     parties := parties loc;
     candidates := candidates loc;
     winningParty := winningParty loc |}.

Definition tick_location (d : Draw) (loc : LocationData) : LocationData :=
  if hit d then bump loc (increase d) else loc.

(** [prev.map(loc => ...)]: the locations are visited in order, the [i]-th
    one with the [i]-th draw of the tick. *)
Fixpoint tick_from (draws : nat -> Draw) (i : nat) (prev : list LocationData)
  : list LocationData :=
  match prev with
  | [] => []
  | loc :: rest => tick_location (draws i) loc :: tick_from draws (S i) rest
  end.

Definition tick (draws : nat -> Draw) (prev : list LocationData) : list LocationData :=
  tick_from draws 0 prev.

(* ----------------------------------------------------------------- *)
(** ** [components/VoteMap.tsx]: marker classification *)

Module VoteMap.
Import JSNumber.

(** [PARTY_COLORS], in the order of the literal. *)
Definition PARTY_COLORS : list (string * string) :=
  [ ("PARTIDO CENTRO DEMOCRÁTICO", "#0ea5e9");
    ("PACTO HISTÓRICO", "#9333ea");
    ("PARTIDO LIBERAL", "#ef4444");
    ("PARTIDO CONSERVADOR", "#1d4ed8");
    ("ALIANZA VERDE", "#22c55e");
    ("DEFAULT", "#64748b") ].

(** [PARTY_COLORS[k]]. *)
Fixpoint color_of (table : list (string * string)) (k : string) : option string :=
  match table with
  | [] => None
  | (k', c) :: table' => if String.eqb k k' then Some c else color_of table' k
  end.

(** [k.split(' ')[1]]: the second word of a table key, if it has one. *)
Definition token (k : string) : option string :=
  nth_error (JSString.split " " k) 1.

(** [k => party.includes(k.split(' ')[1])]. *)
Definition matches (party k : string) : bool :=
  JSString.includes party (JSString.to_string (token k)).

(** [Object.keys(PARTY_COLORS).find(...) || "DEFAULT"], then
    [PARTY_COLORS[matchedKey] || PARTY_COLORS["DEFAULT"]]. *)
Definition party_color (winning : string) : string :=
  let party := JSString.or_else (Some winning) "DEFAULT" in
  let matchedKey :=
    JSString.or_else (find (matches party) (map fst PARTY_COLORS)) "DEFAULT" in
  JSString.or_else (color_of PARTY_COLORS matchedKey)
    (JSString.to_string (color_of PARTY_COLORS "DEFAULT")).

Record Stats := {
  max : float;
  avg : float
}.

(** [stats], lines 51-56. *)
Definition stats (data : list LocationData) : Stats :=
  match data with
  | [] => {| max := 100; avg := 0 |}
  | _ =>
      {| max := Math_max (map (fun d => num (totalVotes d)) data);
         avg := (fold_left (fun acc c => acc + num (totalVotes c))%float data 0%float
                 / num (Z.of_nat (List.length data)))%float |}
  end.

Record Visuals := {
  radius : float;
  color : string;
  opacity : float;
  stroke : bool
}.

(** [Math.min(loc.totalVotes / stats.max, 1)]. *)
Definition intensity (st : Stats) (loc : LocationData) : float :=
  Math_min (num (totalVotes loc) / max st)%float 1%float.

(** The colour ladder of the heat map, darkest first. *)
Definition heat_color (i : float) : string :=
  if gt i 0.8 then "#7f1d1d"
  else if gt i 0.6 then "#dc2626"
  else if gt i 0.4 then "#ea580c"
  else if gt i 0.2 then "#f59e0b"
  else "#fbbf24".

(** [loc.totalVotes > (stats.avg * 1.8)]. *)
Definition isAnomaly (st : Stats) (loc : LocationData) : bool :=
  gt (num (totalVotes loc)) (avg st * 1.8)%float.

(** [getVisuals], lines 59-90, with the [viewMode] and [stats] it closes
    over as arguments. *)
Definition getVisuals (viewMode : ViewMode) (st : Stats) (loc : LocationData) : Visuals :=
  let radius0 := (4 + sqrt (num (totalVotes loc)) * 0.8)%float in
  let color0 := "#fbbf24" in
  let opacity0 := 0.6%float in
  let stroke0 := false in
  match viewMode with
  | heatmap =>
      {| radius := radius0;
         color := heat_color (intensity st loc);
         opacity := opacity0;
         stroke := stroke0 |}
  | party_mode =>
      {| radius := 8;
         color := party_color (winningParty loc);
         opacity := 0.8;
         stroke := stroke0 |}
  | audit =>
      let anomaly := isAnomaly st loc in
      {| radius := if anomaly then 15 else 5;
         color := if anomaly then "#ef4444" else "#10b981";
         opacity := if anomaly then 0.9 else 0.4;
         stroke := anomaly |}
  end%float.

(** [data.map((loc, idx) => getVisuals(loc))]: every marker of the map is
    classified against the statistics of the same visible set. *)
Definition markers (viewMode : ViewMode) (data : list LocationData) : list Visuals :=
  map (getVisuals viewMode (stats data)) data.

(** The anomalous and the calm rendering of the audit view. *)
Definition alert_visuals : Visuals :=
  {| radius := 15; color := "#ef4444"; opacity := 0.9; stroke := true |}.

Definition calm_visuals : Visuals :=
  {| radius := 5; color := "#10b981"; opacity := 0.4; stroke := false |}.

End VoteMap.

(** A location of the given total, for worked examples. *)
Definition location_of_total (n : string) (v : Z) : LocationData :=
  {| name := n; parentLocation := "MEDELLIN"; lat := 6.25; lng := (-75.5)%float;
     totalVotes := v; parties := [("PARTIDO LIBERAL", v)];
     candidates := [("A", v)]; winningParty := "PARTIDO LIBERAL" |}.

(* ----------------------------------------------------------------- *)
(** ** Vocabulary of the leaderboard properties *)

(** [totals[k] = (totals[k] || 0) + v], the tally without its guard. *)
Definition add_entry (totals : JSObject.t) (e : string * Z) : JSObject.t :=
  JSObject.set totals (fst e) (JSObject.get_or0 totals (fst e) + snd e).

(** The entries of the object [proj loc] of every visible location that pass
    the guard of the selection, in the order [forEach] visits them. *)
Definition tallied (sel : string) (proj : LocationData -> JSObject.t)
    (visible : list LocationData) : list (string * Z) :=
  flat_map (fun loc => filter (fun e => selected sel (fst e))
                         (JSObject.entries (proj loc))) visible.

(** One of the two totals objects, on its own. *)
Definition board (sel : string) (proj : LocationData -> JSObject.t)
    (visible : list LocationData) : JSObject.t :=
  fold_left (fun acc loc => tally_object sel acc (proj loc)) visible [].

(** The keys of [ks] that are not in [seen], each at its first occurrence. *)
Fixpoint fresh (seen ks : list string) : list string :=
  match ks with
  | [] => []
  | k :: ks' =>
      if existsb (String.eqb k) seen then fresh seen ks'
      else k :: fresh (seen ++ [k]) ks'
  end.

(** First-seen key order. *)
Definition first_seen (ks : list string) : list string := fresh [] ks.

(** The sum of the values visited under the key [k]. *)
Definition sum_of_key (k : string) (l : list (string * Z)) : Z :=
  fold_right (fun e acc => if String.eqb k (fst e) then snd e + acc else acc) 0 l.

Definition sum_values (l : list (string * Z)) : Z :=
  fold_right (fun e acc => snd e + acc) 0 l.

(** [a] comes before [b] in [l]. *)
Definition precedes {A : Type} (l : list A) (a b : A) : Prop :=
  exists l1 l2 l3, l = l1 ++ a :: l2 ++ b :: l3.

(** Non-increasing by value. *)
Definition by_value_desc (a b : string * Z) : Prop := snd b <= snd a.

(** [Number.MAX_SAFE_INTEGER], [2^53 - 1]. *)
Definition MAX_SAFE_INTEGER : Z := 9007199254740991.

(** The entries on which the tally of the model is the tally of the code:
    no key names a property of [Object.prototype], so the first read of a
    key in the totals is [undefined]; and the values are not negative and
    sum to a safe integer, so every partial sum is an integer that binary64
    holds exactly and the differences the sort compares keep their sign. *)
Definition exact_tally (pairs : list (string * Z)) : bool :=
  forallb (fun e => JSObject.own_key (fst e) && (0 <=? snd e)) pairs
  && (sum_values pairs <=? MAX_SAFE_INTEGER).

(** What the code holds under the key [k], a name that is no property of
    [Object.prototype], after the entries [pairs]:
    [totals[k] = (totals[k] || 0) + v] for each entry of that key in turn,
    in binary64, from an object without the key ([None] for [undefined]). *)
Definition accumulate (k : string) (acc : option float) (e : string * Z)
  : option float :=
  if String.eqb k (fst e)
  then Some (JSNumber.or_zero acc + JSNumber.num (snd e))%float
  else acc.

Definition accumulated (k : string) (pairs : list (string * Z)) : option float :=
  fold_left (accumulate k) pairs None.

(** The key [a] is enumerated before the key [b] by [Object.entries] in an
    object whose keys were created in the order [created]: an array index
    comes before a key that is none, two array indices are in ascending
    numeric order, and two other keys are in the order of their creation. *)
Definition enumerated_before (created : list string) (a b : string) : Prop :=
  match JSObject.array_index a, JSObject.array_index b with
  | Some i, Some j => (i < j)%N
  | Some _, None => True
  | None, Some _ => False
  | None, None => precedes created a b
  end.

(** What a leaderboard [top] of the totals object [totals] must be. *)
Record leaderboard (sel : string) (pairs : list (string * Z))
    (totals : JSObject.t) (top : list (string * Z)) : Prop := {
  lb_length : List.length top = Nat.min 5 (List.length totals);
  lb_sorted : StronglySorted by_value_desc top;
  lb_sums : forall k v, In (k, v) top ->
      selected sel k = true /\ v = sum_of_key k pairs;
  lb_prefix : exists rest, Permutation (top ++ rest) totals
      /\ Forall (fun r => Forall (fun e => snd r <= snd e) top) rest;
  lb_ties : forall a b, precedes top a b -> snd a = snd b ->
      precedes (JSObject.entries totals) a b
      /\ enumerated_before (first_seen (map fst pairs)) (fst a) (fst b);
  lb_keys : JSObject.keys totals = first_seen (map fst pairs)
}.

(* ----------------------------------------------------------------- *)
(** ** Vocabulary of the other properties *)

(** The average total of a non-empty visible set as a rational number,
    without any rounding, and 1.8 times it. *)
Definition exact_average (data : list LocationData) : Q :=
  Qmake (sum_totalVotes data) (Pos.of_nat (List.length data)).

Definition exact_threshold (data : list LocationData) : Q :=
  ((18 # 10) * exact_average data)%Q.

(** The marker of a location without votes in a visible set without votes. *)
Definition base_visuals : VoteMap.Visuals :=
  {| VoteMap.radius := 4; VoteMap.color := "#fbbf24";
     VoteMap.opacity := 0.6; VoteMap.stroke := false |}.

(** The colour ladder read on the ratio itself: capping the ratio at [1]
    changes no band. *)
Definition band_of_ratio (r : float) : string :=
  if JSNumber.gt r 0.8 then "#7f1d1d"
  else if JSNumber.gt r 0.6 then "#dc2626"
  else if JSNumber.gt r 0.4 then "#ea580c"
  else if JSNumber.gt r 0.2 then "#f59e0b"
  else "#fbbf24".

(** The conjunction of the three predicates, each switched off by its
    sentinel. *)
Definition keep (filters : FilterState) (d : LocationData) : bool :=
  (String.eqb (party filters) ALL || has_party (party filters) d)
  && (String.eqb (candidate filters) ALL || has_candidate (candidate filters) d)
  && reaches (minVotes filters) d.

(** [l1] is [l2] with some elements left out, the others in their order. *)
Inductive subsequence {A : Type} : list A -> list A -> Prop :=
| sub_nil : subsequence [] []
| sub_keep x l1 l2 : subsequence l1 l2 -> subsequence (x :: l1) (x :: l2)
| sub_skip x l1 l2 : subsequence l1 l2 -> subsequence l1 (x :: l2).

(** A stage is a filter when it keeps the elements that pass a predicate. *)
Definition is_filter (stage : list LocationData -> list LocationData) : Prop :=
  exists p, forall data, stage data = filter p data.

(** The stages run one after the other. *)
Definition run_stages (stages : list (list LocationData -> list LocationData))
    (data : list LocationData) : list LocationData :=
  fold_left (fun d stage => stage d) stages data.

(** What a tick may change in a location: nothing but the total, which
    does not decrease. *)
Definition tick_preserves (old new : LocationData) : Prop :=
  totalVotes old <= totalVotes new
  /\ name new = name old
  /\ parentLocation new = parentLocation old
  /\ lat new = lat old
  /\ lng new = lng old
  /\ parties new = parties old
  /\ candidates new = candidates old
  /\ winningParty new = winningParty old.

(** The total of a location is the sum of each of its two breakdowns. *)
Definition balanced (l : LocationData) : Prop :=
  totalVotes l = JSObject.values_sum (parties l)
  /\ totalVotes l = JSObject.values_sum (candidates l).

Definition sum_voteCount (records : list VoteRecord) : Z :=
  fold_right (fun r acc => voteCount r + acc) 0 records.

(* ----------------------------------------------------------------- *)
(** ** Worked inputs *)

(** The visible set with the totals 0, 10 and 50. *)
Definition heat_example : list LocationData :=
  [location_of_total "a" 0; location_of_total "b" 10; location_of_total "c" 50].

(** Two locations for worked examples of the filter. *)
Definition filter_example : list LocationData :=
  [ {| name := "IE Belén"; parentLocation := "Comuna 16"; lat := 6.23; lng := (-75.6)%float;
       totalVotes := 30; parties := [("PARTIDO LIBERAL", 20); ("PACTO HISTÓRICO", 10)];
       candidates := [("Ana", 20); ("Luis", 10)]; winningParty := "PARTIDO LIBERAL" |};
    {| name := "IE Laureles"; parentLocation := "Comuna 11"; lat := 6.24; lng := (-75.59)%float;
       totalVotes := 5; parties := [("PACTO HISTÓRICO", 5)];
       candidates := [("Luis", 5)]; winningParty := "PACTO HISTÓRICO" |} ].

Definition liberal_filter : FilterState :=
  {| minVotes := 10; party := "PARTIDO LIBERAL"; candidate := ALL |}.

Definition ana_filter : FilterState :=
  {| minVotes := 10; party := "PARTIDO LIBERAL"; candidate := "Ana" |}.

(** Nine locations with 305 votes in all, one of them with 61: exactly 1.8
    times the average. *)
Definition boundary_example : list LocationData :=
  map (location_of_total "Mesa") [61; 31; 31; 31; 31; 30; 30; 30; 30].

(** Draws for a worked example: every other location is hit, by 3 votes. *)
Definition alternate_draws (i : nat) : Draw :=
  {| hit := Nat.even i; increase := 3 |}.

(** Two locations, the first with votes for a party named [B] only, the
    second with as many votes for a party named [7] only. *)
Definition numeric_key_example : list LocationData :=
  [ {| name := "Mesa 1"; parentLocation := "Comuna 1"; lat := 6.2; lng := (-75.5)%float;
       totalVotes := 1; parties := [("B", 1)]; candidates := [("Ana", 1)];
       winningParty := "B" |};
    {| name := "Mesa 2"; parentLocation := "Comuna 1"; lat := 6.2; lng := (-75.5)%float;
       totalVotes := 1; parties := [("7", 1)]; candidates := [("Luis", 1)];
       winningParty := "7" |} ].

(** One location whose three parties, named [10], [2] and [B] in this order,
    have three votes each. *)
Definition index_tie_example : list LocationData :=
  [ {| name := "Mesa 1"; parentLocation := "Comuna 1"; lat := 6.2; lng := (-75.5)%float;
       totalVotes := 9; parties := [("10", 3); ("2", 3); ("B", 3)];
       candidates := [("Ana", 9)]; winningParty := "10" |} ].

(* ----------------------------------------------------------------- *)
(** ** [App.tsx]: the option lists of the two select boxes *)

(** The strings are held as UTF-8 bytes; [xs.sort()] compares UTF-16 code
    units.  Where two strings first differ, the two bytes are at the same
    place of a character, and their order is the order of the code units but
    for the first byte of a character outside the Basic Multilingual Plane
    ([F0] and above): its first code unit is a surrogate, [D800] to [DBFF],
    which is above the characters up to [U+D7FF] (first byte up to [ED]) and
    below those from [U+E000] to [U+FFFF] (first byte [EE] or [EF]).
    [unit_rank] puts the bytes in that order. *)
Definition unit_rank (c : ascii) : N :=
  let n := N_of_ascii c in
  if (n <? 238)%N then n
  else if (n <? 240)%N then (n + 16)%N
  else (n - 2)%N.

(** [a <= b] as strings of UTF-16 code units: [a] is a prefix of [b], or at
    the first place where they differ [a] has the lesser code unit. *)
Fixpoint code_unit_leb (a b : string) : bool :=
  match a, b with
  | EmptyString, _ => true
  | String _ _, EmptyString => false
  | String x a', String y b' =>
      if Ascii.eqb x y then code_unit_leb a' b'
      else (unit_rank x <? unit_rank y)%N
  end.

(** Every character of the string is below [U+E000]: no byte is [EE] or
    above. *)
Fixpoint below_E000 (s : string) : bool :=
  match s with
  | EmptyString => true
  | String c s' => (N_of_ascii c <? 238)%N && below_E000 s'
  end.

(** [xs.sort()] on strings: ascending by code units. *)
Fixpoint insert_string (k : string) (l : list string) : list string :=
  match l with
  | [] => [k]
  | x :: l' => if code_unit_leb k x then k :: l else x :: insert_string k l'
  end.

Definition Array_sort (l : list string) : list string :=
  fold_right insert_string [] l.

(** [Array.from(new Set(xs)).sort()]: a [Set] keeps the first occurrence of
    each value, in insertion order. *)
Definition unique_sorted (xs : list string) : list string :=
  Array_sort (first_seen xs).

(** [uniqueParties] and [uniqueCandidates], lines 46-47. *)
Definition uniqueParties (rawData : list VoteRecord) : list string :=
  unique_sorted (map partyName rawData).

Definition uniqueCandidates (rawData : list VoteRecord) : list string :=
  unique_sorted (map candidateName rawData).

(** U+FF21, the fullwidth letter A, and U+1F600, a face, in UTF-8: as code
    units [FF21] and [D83D DE00]. *)
Definition fullwidth_A : string :=
  String (ascii_of_nat 239) (String (ascii_of_nat 188) (String (ascii_of_nat 161) "")).
Definition grinning_face : string :=
  String (ascii_of_nat 240) (String (ascii_of_nat 159)
    (String (ascii_of_nat 152) (String (ascii_of_nat 128) ""))).

(** Records for a worked example of the option lists. *)
Definition option_example : list VoteRecord :=
  map (fun pc => {| locationName := "Mesa 1"; recordParent := "Comuna 1";
                    recordLat := 6.2; recordLng := (-75.5)%float;
                    partyName := fst pc; candidateName := snd pc; voteCount := 1 |})
    [ (fullwidth_A, "Luis"); ("PACTO HISTÓRICO", "Ana"); (grinning_face, "Luis");
      ("PACTO", "Ana"); ("PACTO HISTÓRICO", "Luis"); ("ALIANZA VERDE", "Ana") ].

(* ----------------------------------------------------------------- *)
(** ** [App.tsx]: the data-source controls and the timer *)

Inductive DataSource := CSV | E14_STREAM.

(** The state the live simulation reads and writes: [isLive], [dataSource]
    and [aggregatedData]. *)
Record AppState := {
  isLive : bool;
  dataSource : DataSource;
  aggregatedData : list LocationData
}.

(** What can happen to that state: a click on one of the three buttons of
    the navigation bar, or the timer of the live simulation firing. *)
Inductive AppEvent :=
| ClickCSV
| ClickE14
| ClickToggle
| TimerFires (draws : nat -> Draw).

Definition is_stream (d : DataSource) : bool :=
  match d with E14_STREAM => true | CSV => false end.

(** [isLive && dataSource === 'E14_STREAM']: the condition under which the
    effect installs the interval. *)
Definition interval_installed (s : AppState) : bool :=
  isLive s && is_stream (dataSource s).

(** The handlers: [setDataSource('CSV'); setIsLive(false)] (line 188),
    [setDataSource('E14_STREAM')] (line 194), [setIsLive(!isLive)] on a
    button that is rendered only when [dataSource === 'E14_STREAM']
    (lines 202-206), and the callback of [setInterval] (lines 130-139), which
    exists only while the interval is installed. *)
Definition app_step (s : AppState) (e : AppEvent) : AppState :=
  match e with
  | ClickCSV =>
      {| isLive := false; dataSource := CSV; aggregatedData := aggregatedData s |}
  | ClickE14 =>
      {| isLive := isLive s; dataSource := E14_STREAM;
         aggregatedData := aggregatedData s |}
  | ClickToggle =>
      if is_stream (dataSource s)
      then {| isLive := negb (isLive s); dataSource := dataSource s;
              aggregatedData := aggregatedData s |}
      else s
  | TimerFires draws =>
      if interval_installed s
      then {| isLive := isLive s; dataSource := dataSource s;
              aggregatedData := tick draws (aggregatedData s) |}
      else s
  end.

Definition app_run (s : AppState) (events : list AppEvent) : AppState :=
  fold_left app_step events s.

(** [useState(false)], [useState('CSV')] and the aggregate of a load. *)
Definition app_start (data : list LocationData) : AppState :=
  {| isLive := false; dataSource := CSV; aggregatedData := data |}.

(** The draws of every timer event are in range. *)
Definition event_ok (e : AppEvent) : Prop :=
  match e with
  | TimerFires draws => forall i, draw_ok (draws i)
  | _ => True
  end.

(* ----------------------------------------------------------------- *)
(** ** [App.tsx]: bold markers in the assistant's messages *)

Module Markdown.

Definition LF : ascii := ascii_of_nat 10.
Definition CR : ascii := ascii_of_nat 13.

(** U+2028 and U+2029 in UTF-8. *)
Definition LS : string :=
  String (ascii_of_nat 226) (String (ascii_of_nat 128) (String (ascii_of_nat 168) "")).
Definition PS : string :=
  String (ascii_of_nat 226) (String (ascii_of_nat 128) (String (ascii_of_nat 169) "")).

(** The string starts with a character that [.] does not match: a line
    feed, a carriage return, U+2028 or U+2029. *)
Definition at_line_terminator (s : string) : bool :=
  match s with
  | EmptyString => false
  | String c _ =>
      Ascii.eqb c LF || Ascii.eqb c CR
      || JSString.starts_with LS s || JSString.starts_with PS s
  end.

(** The string starts with the two asterisks of [\*\*]. *)
Definition at_marker (s : string) : bool := JSString.starts_with "**" s.

Fixpoint drop (n : nat) (s : string) : string :=
  match n, s with
  | O, _ => s
  | S _, EmptyString => EmptyString
  | S n', String _ s' => drop n' s'
  end.

(** [(.*?)\*\*] from the start of [s]: the shortest run of characters that
    [.] matches and that is followed by two asterisks, with what follows
    them; [None] when a line terminator or the end comes first. *)
Fixpoint close (s : string) : option (string * string) :=
  match s with
  | EmptyString => None
  | String c s' =>
      if at_marker s then Some (EmptyString, drop 2 s)
      else if at_line_terminator s then None
      else match close s' with
           | Some (body, rest) => Some (String c body, rest)
           | None => None
           end
  end.

(** [text.replace(/\*\*(.*?)\*\*/g, '<strong>$1</strong>')]: the matches are
    looked for from left to right; a match is replaced and the search goes
    on behind it; a character at which no match starts is kept.  Every step
    consumes a character, so the length of the text is fuel enough. *)
Fixpoint replace_bold (fuel : nat) (s : string) : string :=
  match fuel with
  | O => s
  | S fuel' =>
      match s with
      | EmptyString => EmptyString
      | String c s' =>
          match (if at_marker s then close (drop 2 s) else None) with
          | Some (body, rest) =>
              "<strong>" ++ body ++ "</strong>" ++ replace_bold fuel' rest
          | None => String c (replace_bold fuel' s')
          end
      end
  end%string.

(** The HTML of a message of the model, line 373. *)
Definition render_bold (text : string) : string :=
  replace_bold (String.length text) text.

(** Some suffix of the string starts with a line terminator. *)
Fixpoint has_line_terminator (s : string) : bool :=
  at_line_terminator s
  || match s with
     | EmptyString => false
     | String _ s' => has_line_terminator s'
     end.

End Markdown.

(* ----------------------------------------------------------------- *)
(** ** [components/VoteMap.tsx]: what is drawn for a marker *)

Module Marker.

Definition is_audit (viewMode : ViewMode) : bool :=
  match viewMode with audit => true | _ => false end.

(** [pathOptions], lines 114-121. *)
Record PathOptions := {
  path_color : string;
  fillColor : string;
  fillOpacity : float;
  weight : Z;
  path_opacity : float;
  className : string
}.

Definition pathOptions (viewMode : ViewMode) (v : VoteMap.Visuals) : PathOptions :=
  {| path_color := if VoteMap.stroke v then "#ffffff" else VoteMap.color v;
     fillColor := VoteMap.color v;
     fillOpacity := VoteMap.opacity v;
     weight := if VoteMap.stroke v then 2 else 1;
     path_opacity := 0.8;
     className := if is_audit viewMode && VoteMap.stroke v then "animate-pulse" else "" |}.

(** [viewMode === 'audit' && color === '#ef4444']: the test of the tooltip
    (line 130), of the popup header (line 136) and of its icon (line 142). *)
Definition shows_alert (viewMode : ViewMode) (v : VoteMap.Visuals) : bool :=
  is_audit viewMode && String.eqb (VoteMap.color v) "#ef4444".

(** The text of the tooltip, line 130. *)
Definition tooltip (viewMode : ViewMode) (loc : LocationData) (v : VoteMap.Visuals) : string :=
  (name loc ++ " " ++ (if shows_alert viewMode v then "(AUDIT ALERT)" else ""))%string.

(** The rows of the popup, lines 165-187: the parties in the party view and
    the candidates in the other two,
    [Object.entries(...).sort((a, b) => b[1] - a[1]).slice(0, 3)]. *)
Definition popup_source (viewMode : ViewMode) (loc : LocationData) : JSObject.t :=
  match viewMode with
  | party_mode => parties loc
  | _ => candidates loc
  end.

Definition popup_rows (viewMode : ViewMode) (loc : LocationData) : list (string * Z) :=
  firstn 3 (sort_desc (JSObject.entries (popup_source viewMode loc))).

End Marker.

(* ----------------------------------------------------------------- *)
(** ** Vocabulary of the further properties *)

(** [strict] keeps no location that [loose] drops. *)
Definition at_least_as_strict (strict loose : FilterState) : Prop :=
  minVotes loose <= minVotes strict
  /\ (party loose = ALL \/ party loose = party strict)
  /\ (candidate loose = ALL \/ candidate loose = candidate strict).

(** The breakdown by party does not exceed the total. *)
Definition covered (l : LocationData) : Prop :=
  JSObject.values_sum (parties l) <= totalVotes l.

(* ----------------------------------------------------------------- *)
(** ** [App.tsx]: the filter controls *)

(** The two boxes of the control panel are the only callers of
    [setFilters], lines 256 and 268:
    [setFilters({...filters, party: e.target.value})] and
    [setFilters({...filters, candidate: e.target.value})]. *)
Inductive FilterEvent :=
| SelectParty (value : string)
| SelectCandidate (value : string).

Definition filter_step (filters : FilterState) (e : FilterEvent) : FilterState :=
  match e with
  | SelectParty value =>
      {| minVotes := minVotes filters; party := value; candidate := candidate filters |}
  | SelectCandidate value =>
      {| minVotes := minVotes filters; party := party filters; candidate := value |}
  end.

(** The filters after a sequence of selections, from the initial state of
    line 34. *)
Definition filter_run (events : list FilterEvent) : FilterState :=
  fold_left filter_step events default_filters.

(* ================================================================= *)
(** * Part II: properties *)

(* ----------------------------------------------------------------- *)
(** ** Binary64 facts *)

Module Binary64.
  Import JSNumber.

(** A power of two with a non-positive exponent is at most one. *)
Lemma pow2_nonpos n : n <= 0 -> 2 ^ n <= 1.
Proof.
  intros Hn. destruct (Z.eq_dec n 0) as [->|Hne]; [reflexivity|].
  rewrite Z.pow_neg_r by lia. lia.
Qed.

(** A positive number below [2^n] has at most [n] binary digits. *)
Lemma digits2_bound p : forall n, Zpos p < 2 ^ n -> Zpos (digits2_pos p) <= n.
Proof.
  induction p as [p IH|p IH|]; intros n Hn; simpl;
    (destruct (Z.leb_spec n 0) as [Hle|Hlt];
     [pose proof (pow2_nonpos n Hle); lia|]).
  - replace n with (Z.succ (n - 1)) in Hn by lia. rewrite Z.pow_succ_r in Hn by lia.
    specialize (IH (n - 1)). lia.
  - replace n with (Z.succ (n - 1)) in Hn by lia. rewrite Z.pow_succ_r in Hn by lia.
    specialize (IH (n - 1)). lia.
  - lia.
Qed.

(** Shifting left by [k] adds [k] digits. *)
Lemma digits2_iter_xO k : forall p,
  digits2_pos (Pos.iter xO p k) = (digits2_pos p + k)%positive.
Proof.
  induction k using Pos.peano_ind; intros p.
  - simpl. lia.
  - rewrite Pos.iter_succ. simpl. rewrite IHk. lia.
Qed.

(** Rounding leaves a 53-digit mantissa with an exponent in range alone. *)
Lemma binary_round_aux_canonical s m e :
  Zpos (digits2_pos m) = 53 -> -1074 <= e <= 971 ->
  binary_round_aux prec emax s (Zpos m) e loc_Exact = S754_finite s m e.
Proof.
  intros Hd He.
  assert (Hf : fexp prec emax (Zdigits2 (Zpos m) + e) = e).
  { simpl Zdigits2. rewrite Hd. unfold fexp, SpecFloat.emin, prec, emax. lia. }
  unfold binary_round_aux, shr_fexp.
  rewrite Hf, Z.sub_diag.
  cbn [shr shr_record_of_loc shr_m loc_of_shr_record round_nearest_even].
  rewrite Hf, Z.sub_diag. cbn [shr shr_record_of_loc shr_m].
  replace (e <=? emax - prec) with true; [reflexivity|].
  symmetry. apply Z.leb_le. unfold emax, prec. lia.
Qed.

(** A positive number lies between the powers of two its digits give. *)
Lemma digits2_range p :
  2 ^ (Zpos (digits2_pos p) - 1) <= Zpos p < 2 ^ Zpos (digits2_pos p).
Proof.
  induction p as [p IH|p IH|]; cbn [digits2_pos]; [| |cbn; lia];
    rewrite Pos2Z.inj_succ;
    set (d := Zpos (digits2_pos p)) in *;
    assert (E1 : 2 ^ Z.succ d = 2 * 2 ^ d) by (apply Z.pow_succ_r; lia);
    assert (E2 : 2 ^ d = 2 * 2 ^ (d - 1))
      by (rewrite <- Z.pow_succ_r by lia; f_equal; lia);
    replace (Z.succ d - 1) with d by lia; lia.
Qed.

Lemma iter_xO_value k : forall p, Zpos (Pos.iter xO p k) = Zpos p * 2 ^ Zpos k.
Proof.
  induction k using Pos.peano_ind; intros p.
  - cbn. lia.
  - rewrite Pos.iter_succ, Pos2Z.inj_succ, Z.pow_succ_r by lia.
    rewrite Pos2Z.inj_xO, IHk. lia.
Qed.

(** An integer of magnitude below [2^53] is a finite binary64 number: its
    mantissa is the integer shifted to 53 digits. *)
Lemma binary_round_form s p :
  Zpos p < 2 ^ 53 ->
  exists m, binary_round prec emax s p 0
            = S754_finite s m (Zpos (digits2_pos p) - 53)
            /\ Zpos m = Zpos p * 2 ^ (53 - Zpos (digits2_pos p))
            /\ valid_binary (S754_finite s m (Zpos (digits2_pos p) - 53)) = true.
Proof.
  intros Hp. pose proof (digits2_bound p 53 Hp) as Hd.
  assert (Hf : fexp prec emax (Zpos (digits2_pos p) + 0) = Zpos (digits2_pos p) - 53).
  { unfold fexp, SpecFloat.emin, prec, emax. lia. }
  unfold binary_round, shl_align. rewrite Hf.
  destruct (Zpos (digits2_pos p) - 53 - 0) as [|k|k] eqn:Hk; try lia.
  - exists p. replace (Zpos (digits2_pos p) - 53) with 0 by lia.
    replace (53 - Zpos (digits2_pos p)) with 0 by lia.
    split; [apply binary_round_aux_canonical; lia|]. split; [lia|].
    unfold valid_binary, bounded, canonical_mantissa.
    replace (Zpos (digits2_pos p)) with 53 by lia. reflexivity.
  - exists (Pos.iter xO p k).
    assert (Hdig : Zpos (digits2_pos (Pos.iter xO p k)) = 53).
    { rewrite digits2_iter_xO. lia. }
    split; [apply binary_round_aux_canonical; [exact Hdig|lia]|]. split.
    + rewrite iter_xO_value. f_equal. f_equal. lia.
    + unfold valid_binary, bounded, canonical_mantissa. rewrite Hdig.
      apply andb_true_intro; split.
      * apply Z.eqb_eq. unfold fexp, SpecFloat.emin, prec, emax. lia.
      * apply Z.leb_le. unfold emax, prec. lia.
Qed.

(** The Number of a non-zero safe integer is finite, with the integer's sign. *)
Lemma num_finite z :
  z <> 0 -> Z.abs z < 2 ^ 53 ->
  exists m e, Prim2SF (num z) = S754_finite (z <? 0) m e.
Proof.
  intros Hz Hb. unfold num.
  destruct z as [|p|p]; [congruence| |]; cbn [binary_normalize Z.ltb Z.compare].
  - destruct (binary_round_form false p Hb) as (m & -> & _ & Hv).
    exists m, (Zpos (digits2_pos p) - 53). now apply Prim2SF_SF2Prim.
  - destruct (binary_round_form true p Hb) as (m & -> & _ & Hv).
    exists m, (Zpos (digits2_pos p) - 53). now apply Prim2SF_SF2Prim.
Qed.

Lemma num_pos_form p :
  Zpos p < 2 ^ 53 ->
  exists m, Prim2SF (num (Zpos p)) = S754_finite false m (Zpos (digits2_pos p) - 53)
            /\ Zpos m = Zpos p * 2 ^ (53 - Zpos (digits2_pos p)).
Proof.
  intros Hp. destruct (binary_round_form false p Hp) as (m & Hr & Hm & Hv).
  exists m. split; [|exact Hm]. unfold num. cbn [binary_normalize].
  rewrite Hr. now apply Prim2SF_SF2Prim.
Qed.

(** Non-negative safe integers compare as Numbers the way they compare as
    integers. *)
Lemma num_compare a b :
  0 <= a < 2 ^ 53 -> 0 <= b < 2 ^ 53 ->
  SFcompare (Prim2SF (num a)) (Prim2SF (num b)) = Some (a ?= b).
Proof.
  intros Ha Hb.
  destruct a as [|p|p], b as [|q|q]; try lia.
  - reflexivity.
  - destruct (num_pos_form q) as (m & -> & _); [lia|]. reflexivity.
  - destruct (num_pos_form p) as (m & -> & _); [lia|]. reflexivity.
  - destruct (num_pos_form p) as (m1 & -> & Hm1); [lia|].
    destruct (num_pos_form q) as (m2 & -> & Hm2); [lia|].
    cbn [SFcompare].
    pose proof (digits2_range p) as Rp. pose proof (digits2_range q) as Rq.
    pose proof (digits2_bound p 53 ltac:(lia)) as Bp.
    f_equal.
    destruct (Z.compare_spec (Zpos (digits2_pos p) - 53) (Zpos (digits2_pos q) - 53))
      as [He|He|He].
    + change (Pos.compare_cont Eq m1 m2) with (Z.compare (Zpos m1) (Zpos m2)).
      rewrite Hm1, Hm2.
      replace (Zpos (digits2_pos q)) with (Zpos (digits2_pos p)) by lia.
      assert (HK : 0 < 2 ^ (53 - Zpos (digits2_pos p)))
        by (apply Z.pow_pos_nonneg; lia).
      destruct (Z.compare_spec (Zpos p) (Zpos q)) as [E|E|E];
        [apply Z.compare_eq_iff|apply Z.compare_lt_iff|apply Z.compare_gt_iff]; nia.
    + symmetry. apply Z.compare_lt_iff.
      assert (2 ^ Zpos (digits2_pos p) <= 2 ^ (Zpos (digits2_pos q) - 1))
        by (apply Z.pow_le_mono_r; lia).
      lia.
    + symmetry. apply Z.compare_gt_iff.
      assert (2 ^ Zpos (digits2_pos q) <= 2 ^ (Zpos (digits2_pos p) - 1))
        by (apply Z.pow_le_mono_r; lia).
      lia.
Qed.

Lemma num_not_nan a : 0 <= a < 2 ^ 53 -> is_nan (num a) = false.
Proof.
  intros Ha. unfold is_nan. rewrite eqb_spec. unfold SFeqb.
  rewrite (num_compare a a Ha Ha), Z.compare_refl. reflexivity.
Qed.

Lemma num_ltb a b :
  0 <= a < 2 ^ 53 -> 0 <= b < 2 ^ 53 -> (num a <? num b)%float = (a <? b).
Proof.
  intros Ha Hb. rewrite ltb_spec. unfold SFltb, Z.ltb.
  rewrite (num_compare a b Ha Hb). reflexivity.
Qed.

(** [Math.max] of two non-negative safe integers is their maximum. *)
Lemma Math_max2_num a b :
  0 <= a < 2 ^ 53 -> 0 <= b < 2 ^ 53 ->
  Math_max2 (num a) (num b) = num (Z.max a b).
Proof.
  intros Ha Hb. unfold Math_max2.
  rewrite (num_not_nan a Ha), (num_not_nan b Hb). cbn [orb].
  rewrite (num_ltb a b Ha Hb), (num_ltb b a Hb Ha).
  destruct (Z.ltb_spec a b); [now rewrite Z.max_r by lia|].
  destruct (Z.ltb_spec b a); [now rewrite Z.max_l by lia|].
  assert (a = b) by lia. subst b. rewrite Z.max_id. now destruct (get_sign (num a)).
Qed.

Lemma Math_max2_neg_infinity a :
  0 <= a < 2 ^ 53 -> Math_max2 neg_infinity (num a) = num a.
Proof.
  intros Ha. unfold Math_max2.
  change (is_nan neg_infinity) with false. rewrite (num_not_nan a Ha). cbn [orb].
  replace (neg_infinity <? num a)%float with true; [reflexivity|].
  rewrite ltb_spec. change (Prim2SF neg_infinity) with (S754_infinity true).
  destruct a as [|p|p]; try lia; [reflexivity|].
  destruct (num_pos_form p) as (m & -> & _); [lia|]. reflexivity.
Qed.

Lemma Math_max_from m l :
  0 <= m < 2 ^ 53 -> Forall (fun a => 0 <= a < 2 ^ 53) l ->
  fold_left Math_max2 (map num l) (num m) = num (fold_left Z.max l m).
Proof.
  intros Hm Hl. revert m Hm.
  induction Hl as [|a l Ha _ IH]; intros m Hm; cbn [map fold_left].
  - reflexivity.
  - rewrite Math_max2_num by assumption. apply IH. lia.
Qed.

Lemma fold_left_max_greatest l : forall m M,
  m <= M -> Forall (fun a => a <= M) l -> m = M \/ In M l ->
  fold_left Z.max l m = M.
Proof.
  induction l as [|a l IH]; intros m M Hm Hl Hin; cbn [fold_left].
  - destruct Hin as [Hin|[]]. exact Hin.
  - inversion Hl as [|? ? Ha Hl']; subst. apply IH; [lia|exact Hl'|].
    destruct Hin as [->|[->|Hin]]; [left; lia|left; lia|now right].
Qed.

(** A finite non-zero number divided by itself is exactly [1]. *)
Lemma div_self x s m e :
  Prim2SF x = S754_finite s m e -> (x / x)%float = 1%float.
Proof.
  intros Hx. apply Prim2SF_inj. rewrite div_spec, Hx.
  unfold SF64div, SFdiv, SFdiv_core_binary.
  replace (Zdigits2 (Zpos m) + e - (Zdigits2 (Zpos m) + e)) with 0 by lia.
  rewrite Z.sub_diag.
  change (Z.min (fexp prec emax 0) 0) with (-53).
  change (0 - -53) with 53.
  rewrite Z.shiftl_mul_pow2 by lia.
  pose proof (Z.div_mul (2 ^ 53) (Zpos m) ltac:(lia)) as Hq.
  pose proof (Z.mod_mul (2 ^ 53) (Zpos m) ltac:(lia)) as Hr.
  rewrite (Z.mul_comm (2 ^ 53)) in Hq, Hr.
  unfold Z.div, Z.modulo in Hq, Hr.
  destruct (Z.div_eucl (Zpos m * 2 ^ 53) (Zpos m)) as [q r].
  simpl in Hq, Hr. subst q r.
  assert (Hl : new_location (Zpos m) 0 = loc_Exact).
  { unfold new_location, new_location_even, new_location_odd.
    destruct (Z.even (Zpos m)); reflexivity. }
  rewrite Hl. rewrite xorb_nilpotent. reflexivity.
Qed.

(** Only NaN differs from itself. *)
Lemma SFeqb_irrefl_nan R : SFeqb R R = false -> R = S754_nan.
Proof.
  unfold SFeqb. destruct R as [s|s| |s m e]; simpl; try discriminate; auto.
  - destruct s; discriminate.
  - rewrite Z.compare_refl, Pos.compare_cont_refl. destruct s; discriminate.
Qed.

Lemma is_nan_spec r : is_nan r = true -> Prim2SF r = S754_nan.
Proof.
  unfold is_nan. rewrite eqb_spec. intros H.
  apply SFeqb_irrefl_nan. now destruct (SFeqb (Prim2SF r) (Prim2SF r)).
Qed.

(** A number neither below nor above a positive finite one, and not NaN,
    is that number. *)
Lemma SFcompare_eq_finite R mo eo :
  SFltb R (S754_finite false mo eo) = false ->
  SFltb (S754_finite false mo eo) R = false -> R <> S754_nan ->
  R = S754_finite false mo eo.
Proof.
  unfold SFltb. destruct R as [s|s| |s m e]; cbn [SFcompare];
    try (destruct s; discriminate); try congruence.
  destruct s; try discriminate.
  rewrite (Z.compare_antisym e eo).
  destruct (Z.compare_spec e eo) as [->|Hlt|Hgt]; cbn [CompOpp]; try discriminate.
  change (Pos.compare_cont Eq m mo) with (Pos.compare m mo).
  change (Pos.compare_cont Eq mo m) with (Pos.compare mo m).
  rewrite (Pos.compare_antisym m mo).
  destruct (Pos.compare m mo) eqn:Hc; cbn [CompOpp]; try discriminate.
  apply Pos.compare_eq in Hc. subst. reflexivity.
Qed.

(** What lies above a positive number lies above every positive number of
    a smaller exponent. *)
Lemma SFltb_above mt et mo eo R :
  et < eo ->
  SFltb (S754_finite false mo eo) R = true ->
  SFltb (S754_finite false mt et) R = true.
Proof.
  intros Het. unfold SFltb.
  destruct R as [s|s| |s m e]; cbn [SFcompare];
    try (destruct s; (discriminate || reflexivity)); try discriminate.
  destruct s; try discriminate.
  destruct (Z.compare_spec eo e) as [<-|Hlt|Hgt]; try discriminate.
  - intros _. destruct (Z.compare_spec et eo); reflexivity || lia.
  - intros _. destruct (Z.compare_spec et e); reflexivity || lia.
Qed.

(** Capping a ratio at [1] does not move it across a threshold below [1]. *)
Lemma ltb_Math_min_one t r mt et :
  Prim2SF t = S754_finite false mt et -> et < -52 ->
  (t <? Math_min r 1)%float = (t <? r)%float.
Proof.
  intros Ht Het. unfold Math_min.
  assert (H1 : Prim2SF 1 = S754_finite false 4503599627370496 (-52)) by reflexivity.
  destruct (is_nan r) eqn:Hnan.
  - cbn [orb]. apply is_nan_spec in Hnan.
    rewrite !ltb_spec, Ht, Hnan. reflexivity.
  - change (is_nan 1) with false. cbn [orb].
    destruct (r <? 1)%float eqn:Hlt; [reflexivity|].
    destruct (1 <? r)%float eqn:Hgt.
    + rewrite ltb_spec, H1 in Hgt. rewrite !ltb_spec, Ht, H1.
      rewrite (SFltb_above mt et _ _ _ Het Hgt).
      unfold SFltb. cbn [SFcompare].
      destruct (Z.compare_spec et (-52)); reflexivity || lia.
    + assert (Hr : r = 1%float).
      { apply Prim2SF_inj. rewrite ltb_spec, H1 in Hlt, Hgt. rewrite H1.
        apply SFcompare_eq_finite; auto.
        intros Hn. unfold is_nan in Hnan. rewrite eqb_spec, Hn in Hnan. discriminate. }
      subst r. reflexivity.
Qed.

(** Zero divided by anything is NaN or a zero. *)
Lemma zero_div_cases m :
  (0 / m = nan \/ 0 / m = 0 \/ 0 / m = -0)%float.
Proof.
  assert (H : Prim2SF (0 / m) = S754_nan \/ Prim2SF (0 / m) = S754_zero false
              \/ Prim2SF (0 / m) = S754_zero true).
  { rewrite div_spec. change (Prim2SF 0) with (S754_zero false).
    destruct (Prim2SF m) as [s|s| |s mm e]; simpl; auto; destruct s; auto. }
  destruct H as [H|[H|H]]; [left|right; left|right; right];
    apply Prim2SF_inj; rewrite H; reflexivity.
Qed.

(** [iter_pos] is iteration. *)
Lemma iter_pos_nat {A} (f : A -> A) n : forall x,
  iter_pos f n x = Nat.iter (Pos.to_nat n) f x.
Proof.
  induction n as [n IH|n IH|]; intros x; cbn [iter_pos].
  - rewrite !IH, Pos2Nat.inj_xI.
    replace (S (2 * Pos.to_nat n))%nat with (S (Pos.to_nat n + Pos.to_nat n))%nat by lia.
    rewrite Nat.iter_succ, Nat.iter_add, !Nat.iter_swap. reflexivity.
  - rewrite !IH, Pos2Nat.inj_xO.
    replace (2 * Pos.to_nat n)%nat with (Pos.to_nat n + Pos.to_nat n)%nat by lia.
    now rewrite Nat.iter_add.
  - reflexivity.
Qed.

(** Shifting right what was shifted left loses nothing. *)
Lemma shr_1_iter_xO j : forall x,
  Nat.iter j shr_1 {| shr_m := Zpos (Nat.iter j xO x); shr_r := false; shr_s := false |}
  = {| shr_m := Zpos x; shr_r := false; shr_s := false |}.
Proof.
  induction j as [|j IH]; intros x; [reflexivity|].
  rewrite Nat.iter_succ_r, (Nat.iter_succ j). cbn [shr_1 orb]. apply IH.
Qed.

Lemma shr_iter_xO n x e :
  shr {| shr_m := Zpos (Pos.iter xO x n); shr_r := false; shr_s := false |} e (Zpos n)
  = ({| shr_m := Zpos x; shr_r := false; shr_s := false |}, e + Zpos n).
Proof.
  unfold shr. rewrite iter_pos_nat, Pos2Nat.inj_iter. f_equal.
  apply (shr_1_iter_xO (Pos.to_nat n) x).
Qed.

(** The integer [r] written with the exponent [-k] rounds to the Number of
    [r]. *)
Lemma binary_round_shifted s r pm k :
  Zpos r < 2 ^ 53 -> 0 <= k <= 1074 -> Zpos pm = Zpos r * 2 ^ k ->
  exists m, binary_round prec emax s pm (- k)
            = S754_finite s m (Zpos (digits2_pos r) - 53)
            /\ Zpos m = Zpos r * 2 ^ (53 - Zpos (digits2_pos r)).
Proof.
  intros Hr Hk Hpm.
  pose proof (digits2_bound r 53 Hr) as Hd.
  set (d := Zpos (digits2_pos r)) in *.
  assert (Hdig : Zpos (digits2_pos pm) = d + k).
  { destruct k as [|k|k]; try lia.
    - rewrite Z.pow_0_r, Z.mul_1_r in Hpm. injection Hpm as ->. unfold d. lia.
    - rewrite <- iter_xO_value in Hpm. injection Hpm as ->.
      rewrite digits2_iter_xO. unfold d. lia. }
  assert (Hf : fexp prec emax (Zpos (digits2_pos pm) + - k) = d - 53).
  { rewrite Hdig. unfold fexp, SpecFloat.emin, prec, emax. lia. }
  unfold binary_round, shl_align. rewrite Hf.
  destruct (d - 53 - - k) as [|n|n] eqn:Hn.
  - (* the mantissa has 53 digits *)
    exists pm. replace (- k) with (d - 53) by lia. split.
    + apply binary_round_aux_canonical; lia.
    + rewrite Hpm. f_equal. f_equal. lia.
  - (* shifted right *)
    assert (Hy : exists y, pm = Pos.iter xO y n
                           /\ Zpos y = Zpos r * 2 ^ (53 - d)
                           /\ Zpos (digits2_pos y) = 53).
    { assert (Hkn : 0 <= k - Zpos n) by lia.
      destruct (k - Zpos n) as [|j|j] eqn:Hj; try lia.
      - exists r. split; [|split].
        + apply Pos2Z.inj. rewrite iter_xO_value, Hpm. f_equal. f_equal. lia.
        + replace (53 - d) with 0 by lia. lia.
        + fold d. lia.
      - exists (Pos.iter xO r j). split; [|split].
        + apply Pos2Z.inj. rewrite !iter_xO_value, Hpm, <- Z.mul_assoc,
            <- Z.pow_add_r by lia. f_equal. f_equal. lia.
        + rewrite iter_xO_value. f_equal. f_equal. lia.
        + rewrite digits2_iter_xO. fold d. lia. }
    destruct Hy as (y & -> & Hyv & Hyd). exists y. split; [|exact Hyv].
    unfold binary_round_aux, shr_fexp at 1.
    cbn [Zdigits2]. rewrite Hf. replace (d - 53 - - k) with (Zpos n) by lia.
    cbn [shr_record_of_loc]. rewrite shr_iter_xO.
    cbn [shr_m loc_of_shr_record round_nearest_even].
    unfold shr_fexp. cbn [Zdigits2]. rewrite Hyd.
    replace (fexp prec emax (53 + (- k + Zpos n)) - (- k + Zpos n)) with 0
      by (unfold fexp, SpecFloat.emin, prec, emax; lia).
    cbn [shr shr_record_of_loc shr_m].
    replace (- k + Zpos n) with (d - 53) by lia.
    replace (d - 53 <=? emax - prec) with true; [reflexivity|].
    symmetry. apply Z.leb_le. unfold emax, prec. lia.
  - (* shifted left *)
    exists (Pos.iter xO pm n).
    assert (Hdn : Zpos (digits2_pos (Pos.iter xO pm n)) = 53).
    { rewrite digits2_iter_xO. lia. }
    split; [apply binary_round_aux_canonical; [exact Hdn|lia]|].
    rewrite iter_xO_value, Hpm, <- Z.mul_assoc, <- Z.pow_add_r by lia.
    f_equal. f_equal. lia.
Qed.

Lemma num_zero : Prim2SF (num 0) = S754_zero false.
Proof. reflexivity. Qed.

Lemma shl_align_value m e e' :
  e' <= e -> Zpos (fst (shl_align m e e')) = Zpos m * 2 ^ (e - e').
Proof.
  intros H. unfold shl_align. destruct (e' - e) as [|k|k] eqn:Hk; try lia; cbn [fst].
  - replace (e - e') with 0 by lia. lia.
  - rewrite iter_xO_value. f_equal. f_equal. lia.
Qed.

(** The sum of two non-negative integers whose sum is below [2^53] is
    exact: the sum of their Numbers is the Number of their sum. *)
Lemma num_add a b :
  0 <= a -> 0 <= b -> a + b < 2 ^ 53 -> (num a + num b)%float = num (a + b).
Proof.
  intros Ha Hb Hab. apply Prim2SF_inj. rewrite add_spec. unfold SF64add.
  destruct a as [|p|p]; [|destruct b as [|q|q]|]; try lia.
  - rewrite num_zero. cbn [Z.add].
    destruct b as [|q|q]; try lia; [now rewrite num_zero|].
    destruct (num_pos_form q) as (m & -> & _); [lia|]. reflexivity.
  - rewrite num_zero, Z.add_0_r.
    destruct (num_pos_form p) as (m & -> & _); [lia|]. reflexivity.
  - destruct (num_pos_form p) as (m1 & -> & Hm1); [lia|].
    destruct (num_pos_form q) as (m2 & -> & Hm2); [lia|].
    change (Zpos p + Zpos q) with (Zpos (p + q)) in *.
    destruct (num_pos_form (p + q)) as (m & -> & Hm); [lia|].
    pose proof (digits2_bound p 53 ltac:(lia)) as Bp.
    pose proof (digits2_bound q 53 ltac:(lia)) as Bq.
    pose proof (Pos2Z.is_pos (digits2_pos p)) as Pp.
    pose proof (Pos2Z.is_pos (digits2_pos q)) as Pq.
    set (dp := Zpos (digits2_pos p)) in *. set (dq := Zpos (digits2_pos q)) in *.
    cbn [SFadd cond_Zopp].
    set (ez := Z.min (dp - 53) (dq - 53)).
    assert (E1 : Zpos (fst (shl_align m1 (dp - 53) ez)) = Zpos p * 2 ^ (- ez)).
    { rewrite shl_align_value by (unfold ez; lia).
      rewrite Hm1, <- Z.mul_assoc, <- Z.pow_add_r by (unfold ez; lia).
      f_equal. f_equal. lia. }
    assert (E2 : Zpos (fst (shl_align m2 (dq - 53) ez)) = Zpos q * 2 ^ (- ez)).
    { rewrite shl_align_value by (unfold ez; lia).
      rewrite Hm2, <- Z.mul_assoc, <- Z.pow_add_r by (unfold ez; lia).
      f_equal. f_equal. lia. }
    change (Zpos (fst (shl_align m1 (dp - 53) ez)) + Zpos (fst (shl_align m2 (dq - 53) ez)))
      with (Zpos (fst (shl_align m1 (dp - 53) ez) + fst (shl_align m2 (dq - 53) ez))).
    cbn [binary_normalize].
    destruct (binary_round_shifted false (p + q)
                (fst (shl_align m1 (dp - 53) ez) + fst (shl_align m2 (dq - 53) ez))
                (- ez)) as (m' & Hr & Hm').
    + lia.
    + unfold ez. lia.
    + rewrite Pos2Z.inj_add, E1, E2. lia.
    + rewrite Z.opp_involutive in Hr. rewrite Hr. f_equal.
      apply Pos2Z.inj. now rewrite Hm, Hm'.
Qed.

(** A safe non-negative integer is kept by [|| 0]. *)
Lemma or_zero_num s : 0 <= s < 2 ^ 53 -> or_zero (Some (num s)) = num s.
Proof.
  intros Hs. unfold or_zero. rewrite (num_not_nan s Hs), orb_false_r.
  destruct (Z.eq_dec s 0) as [->|Hne]; [reflexivity|].
  replace (num s =? 0)%float with false; [reflexivity|].
  symmetry. rewrite eqb_spec. change (Prim2SF 0) with (Prim2SF (num 0)).
  unfold SFeqb. rewrite (num_compare s 0 Hs) by lia.
  destruct (Z.compare_spec s 0); [lia|lia|reflexivity].
Qed.

End Binary64.

(* ----------------------------------------------------------------- *)
(** ** Objects as mappings *)

Module JSObjectFacts.
  Import JSObject.

Lemma get_set_same o k v : get (set o k v) k = Some v.
Proof.
  induction o as [|[k' v'] o IH]; cbn [set get].
  - now rewrite String.eqb_refl.
  - destruct (String.eqb k k') eqn:E; cbn [get]; rewrite E; auto.
Qed.

Lemma get_set_other o k k' v : k <> k' -> get (set o k v) k' = get o k'.
Proof.
  intros Hne. induction o as [|[k0 v0] o IH]; cbn [set get].
  - apply String.eqb_neq in Hne. rewrite String.eqb_sym in Hne. now rewrite Hne.
  - destruct (String.eqb k k0) eqn:E; cbn [get].
    + apply String.eqb_eq in E. subst k0.
      apply String.eqb_neq in Hne. rewrite String.eqb_sym in Hne. now rewrite Hne.
    + now rewrite IH.
Qed.

Lemma existsb_eqb_In k ks : existsb (String.eqb k) ks = true <-> In k ks.
Proof.
  rewrite existsb_exists. split.
  - intros (x & Hx & E). apply String.eqb_eq in E. now subst.
  - intros H. exists k. split; [exact H|apply String.eqb_refl].
Qed.

(** Writing a key keeps the keys, or creates the key last. *)
Lemma keys_set o k v :
  keys (set o k v)
  = if existsb (String.eqb k) (keys o) then keys o else keys o ++ [k].
Proof.
  unfold keys. induction o as [|[k' v'] o IH]; cbn [set map fst existsb app].
  - reflexivity.
  - destruct (String.eqb k k') eqn:E; cbn [map fst orb].
    + reflexivity.
    + rewrite IH. now destruct (existsb (String.eqb k) (map fst o)).
Qed.

Lemma wf_set o k v : wf o -> wf (set o k v).
Proof.
  unfold wf. intros Hwf. rewrite keys_set.
  destruct (existsb (String.eqb k) (keys o)) eqn:E; [exact Hwf|].
  apply NoDup_app; [exact Hwf|repeat constructor; intros []|].
  intros x Hx [<-|[]].
  apply existsb_eqb_In in Hx. congruence.
Qed.

Lemma In_get o k v : wf o -> In (k, v) o -> get o k = Some v.
Proof.
  unfold wf, keys. induction o as [|[k' v'] o IH]; intros Hwf Hin; [contradiction|].
  cbn [map fst] in Hwf. inversion Hwf as [|? ? Hnotin Hwf']; subst.
  cbn [get]. destruct Hin as [[= -> ->]|Hin].
  - now rewrite String.eqb_refl.
  - destruct (String.eqb k k') eqn:E.
    + apply String.eqb_eq in E. subst k'. exfalso. apply Hnotin.
      change k with (fst (k, v)). now apply in_map.
    + now apply IH.
Qed.

Lemma get_In o k v : get o k = Some v -> In (k, v) o.
Proof.
  induction o as [|[k' v'] o IH]; cbn [get]; [discriminate|].
  destruct (String.eqb k k') eqn:E.
  - apply String.eqb_eq in E. intros [= ->]. subst. now left.
  - intros H. right. now apply IH.
Qed.

(** Adding [v] to the entry of [k] adds [v] to the sum of the values. *)
Lemma values_sum_set o k v :
  values_sum (set o k (get_or0 o k + v)) = values_sum o + v.
Proof.
  unfold get_or0.
  induction o as [|[k' v'] o IH]; cbn [set get values_sum fold_right snd].
  - lia.
  - destruct (String.eqb k k').
    + cbn [values_sum fold_right snd]. lia.
    + cbn [values_sum fold_right snd].
      fold (values_sum (set o k
              (match get o k with Some v0 => v0 | None => 0 end + v))).
      fold (values_sum o). rewrite IH. lia.
Qed.

Lemma insert_index_perm e l : Permutation (insert_index e l) (e :: l).
Proof.
  induction l as [|x l IH]; cbn [insert_index]; [reflexivity|].
  destruct (index_of x <? index_of e)%N; [|reflexivity].
  rewrite IH. apply perm_swap.
Qed.

Lemma sort_index_perm l : Permutation (sort_index l) l.
Proof.
  induction l as [|x l IH]; cbn [sort_index fold_right]; [reflexivity|].
  fold (sort_index l). rewrite insert_index_perm. now constructor.
Qed.

Lemma partition_perm {A} (f : A -> bool) (l : list A) :
  Permutation (filter f l ++ filter (fun x => negb (f x)) l) l.
Proof.
  induction l as [|x l IH]; cbn [filter]; [reflexivity|].
  destruct (f x); cbn [negb app].
  - now constructor.
  - rewrite <- Permutation_middle. now constructor.
Qed.

(** [Object.entries] lists every own property once. *)
Lemma entries_perm o : Permutation (entries o) o.
Proof.
  unfold entries. rewrite sort_index_perm. apply partition_perm.
Qed.

(** Without array-index keys, [Object.entries] follows the creation order. *)
Lemma entries_no_index o :
  Forall (fun e => is_index e = false) o -> entries o = o.
Proof.
  unfold entries. intros H.
  assert (H12 : filter is_index o = []
                /\ filter (fun e => negb (is_index e)) o = o).
  { induction H as [|e o He _ [IH1 IH2]]; cbn [filter]; [now split|].
    rewrite He. cbn [negb]. now rewrite IH1, IH2. }
  destruct H12 as [-> ->]. reflexivity.
Qed.

Lemma values_sum_perm l1 l2 : Permutation l1 l2 -> values_sum l1 = values_sum l2.
Proof.
  unfold values_sum. induction 1; cbn [fold_right]; lia.
Qed.

End JSObjectFacts.

(* ----------------------------------------------------------------- *)
(** ** The classifier *)

Module JSStringFacts.
Import JSString.

Lemma starts_with_spec p : forall s,
  starts_with p s = true <-> exists post, s = (p ++ post)%string.
Proof.
  induction p as [|a p IH]; intros s; cbn [starts_with String.append].
  - split; [intros _; now exists s|reflexivity].
  - destruct s as [|b s].
    + split; [discriminate|intros (post & H); discriminate H].
    + rewrite andb_true_iff, Ascii.eqb_eq, IH. split.
      * intros (-> & post & ->). now exists post.
      * intros (post & [= -> ->]). split; [reflexivity|now exists post].
Qed.

(** [s.includes(needle)] holds exactly when [needle] occurs in [s]. *)
Lemma includes_spec s : forall needle,
  includes s needle = true
  <-> exists pre post, s = (pre ++ needle ++ post)%string.
Proof.
  induction s as [|c s IH]; intros needle; cbn [includes];
    rewrite orb_true_iff, starts_with_spec.
  - split.
    + intros [(post & H)|H]; [|discriminate]. now exists EmptyString, post.
    + intros (pre & post & H). left. destruct pre; [|discriminate].
      now exists post.
  - rewrite IH. split.
    + intros [(post & H)|(pre & post & ->)].
      * now exists EmptyString, post.
      * now exists (String c pre), post.
    + intros (pre & post & H). destruct pre as [|c' pre].
      * left. now exists post.
      * right. injection H as -> ->. now exists pre, post.
Qed.

End JSStringFacts.

Module VoteMapFacts.
  Import JSNumber VoteMap Binary64.

(** The statistics of a non-empty visible set are its greatest total and the
    quotient of the sum of the totals by their number. *)
Lemma stats_nonempty d data :
  stats (d :: data)
  = {| max := Math_max (map (fun d => num (totalVotes d)) (d :: data));
       avg := (fold_left (fun acc c => acc + num (totalVotes c))%float (d :: data) 0%float
               / num (Z.of_nat (List.length (d :: data))))%float |}.
Proof. reflexivity. Qed.

(** In the audit view a marker is the alert one or the calm one, as
    [isAnomaly] says. *)
Lemma audit_visuals st loc :
  getVisuals audit st loc = if isAnomaly st loc then alert_visuals else calm_visuals.
Proof. unfold getVisuals. destruct (isAnomaly st loc); reflexivity. Qed.

(** C1 as stated fails: among nine locations with 305 votes in all, the one
    with 61 votes has exactly 1.8 times the average, not more, and it gets
    the alert rendering: the quotient 305/9 is rounded down to
    33.888888888888886 and its product with 1.8 to 60.999999999999993. *)
Lemma audit_flags_at_the_threshold :
  In (location_of_total "Mesa" 61) boundary_example
  /\ (exact_threshold boundary_example == inject_Z 61)%Q
  /\ ~ (exact_threshold boundary_example
        < inject_Z (totalVotes (location_of_total "Mesa" 61)))%Q
  /\ (avg (stats boundary_example) * 1.8)%float = 60.999999999999993%float
  /\ getVisuals audit (stats boundary_example) (location_of_total "Mesa" 61)
     = alert_visuals.
Proof.
  split; [left; reflexivity|]. split; [reflexivity|]. split.
  - intros H. vm_compute in H. discriminate H.
  - split; vm_compute; reflexivity.
Qed.

(** C1, as the code has it.  The comparison is the one of binary64 numbers:
    the average is the sum of the totals divided by their number, rounded,
    and its product with 1.8 is rounded again.
    In the audit view every location of the visible set gets the alert
    rendering (colour [#ef4444], radius 15, opacity 0.9, emphasis on) exactly
    when its total is strictly greater than the average total of the visible
    set times 1.8, and the calm rendering otherwise; the average is the sum
    of the totals divided by their number.  The alert rendering has the
    larger radius and the higher opacity.  For the totals 10, 10 and 50 only
    the location with 50 is flagged. *)
Theorem audit_flags_above_threshold : forall data : list LocationData,
  Forall (fun loc =>
    let st := stats data in
    let threshold := (avg st * 1.8)%float in
    (getVisuals audit st loc = alert_visuals
       <-> gt (num (totalVotes loc)) threshold = true)
    /\ (getVisuals audit st loc = calm_visuals
       <-> gt (num (totalVotes loc)) threshold = false)
    /\ (stroke (getVisuals audit st loc) = true
       <-> gt (num (totalVotes loc)) threshold = true)
    /\ avg st
       = (fold_left (fun acc c => acc + num (totalVotes c))%float data 0%float
          / num (Z.of_nat (List.length data)))%float) data
  /\ ((radius calm_visuals <? radius alert_visuals)%float = true
      /\ (opacity calm_visuals <? opacity alert_visuals)%float = true
      /\ color alert_visuals = "#ef4444"
      /\ stroke alert_visuals = true /\ stroke calm_visuals = false)
  /\ markers audit
       [location_of_total "a" 10; location_of_total "b" 10; location_of_total "c" 50]
     = [calm_visuals; calm_visuals; alert_visuals].
Proof.
  intros data. split; [|split; [repeat split|]].
  - apply Forall_forall. intros loc Hin. cbv zeta.
    rewrite audit_visuals. unfold isAnomaly.
    destruct (gt (num (totalVotes loc)) (avg (stats data) * 1.8)) eqn:E.
    + repeat split; intros; try reflexivity; try discriminate.
      destruct data; [contradiction|reflexivity].
    + repeat split; intros; try reflexivity; try discriminate.
      destruct data; [contradiction|reflexivity].
  - vm_compute. reflexivity.
Qed.

(** [Math.max] of a visible set whose totals are all zero is zero. *)
Lemma Math_max_zeros data : forall acc,
  Forall (fun d => totalVotes d = 0) data ->
  acc = neg_infinity \/ acc = 0%float ->
  data <> [] \/ acc = 0%float ->
  fold_left Math_max2 (map (fun d => num (totalVotes d)) data) acc = 0%float.
Proof.
  induction data as [|d data IH]; intros acc Hall Hacc Hne.
  - destruct Hne as [Hne|Hne]; [congruence|exact Hne].
  - inversion Hall as [|? ? Hd Hrest]; subst. cbn [map fold_left]. rewrite Hd.
    apply IH; auto.
    + right. destruct Hacc as [->| ->]; reflexivity.
    + right. destruct Hacc as [->| ->]; reflexivity.
Qed.

(** C10.  In the heat view, on a non-empty visible set whose totals are all
    zero, the visible maximum is zero and every location is still classified:
    it gets the lightest colour with the base radius and opacity. *)
Theorem heat_all_zero_is_total : forall data : list LocationData,
  data <> [] ->
  Forall (fun d => totalVotes d = 0) data ->
  max (stats data) = 0%float
  /\ Forall (fun loc => getVisuals heatmap (stats data) loc = base_visuals) data
  /\ markers heatmap data = map (fun _ => base_visuals) data.
Proof.
  intros data Hne Hall.
  assert (Hmax : max (stats data) = 0%float).
  { destruct data as [|d data]; [congruence|].
    rewrite stats_nonempty. cbn [max]. unfold Math_max.
    apply Math_max_zeros; auto; left; discriminate. }
  assert (Hloc : forall loc, totalVotes loc = 0 ->
                 getVisuals heatmap (stats data) loc = base_visuals).
  { intros loc Hz. unfold getVisuals, intensity. rewrite Hz, Hmax. reflexivity. }
  split; [exact Hmax|]. split.
  - rewrite Forall_forall in Hall |- *. intros loc Hin. apply Hloc, Hall, Hin.
  - unfold markers. apply map_ext_in. intros loc Hin.
    rewrite Forall_forall in Hall. apply Hloc, Hall, Hin.
Qed.

(** Witness of C10: two locations without votes. *)
Lemma heat_all_zero_witness :
  markers heatmap [location_of_total "a" 0; location_of_total "b" 0]
  = [base_visuals; base_visuals].
Proof.
  refine (proj2 (proj2 (heat_all_zero_is_total
            [location_of_total "a" 0; location_of_total "b" 0] _ _))).
  - discriminate.
  - repeat constructor.
Defined.

Lemma heat_color_capped r : heat_color (Math_min r 1) = band_of_ratio r.
Proof.
  unfold heat_color, band_of_ratio, gt.
  rewrite (ltb_Math_min_one 0.8%float r 7205759403792794 (-53) eq_refl ltac:(lia)).
  rewrite (ltb_Math_min_one 0.6%float r 5404319552844595 (-53) eq_refl ltac:(lia)).
  rewrite (ltb_Math_min_one 0.4%float r 7205759403792794 (-54) eq_refl ltac:(lia)).
  rewrite (ltb_Math_min_one 0.2%float r 7205759403792794 (-55) eq_refl ltac:(lia)).
  reflexivity.
Qed.

(** A location without votes is in the lowest band whatever the maximum. *)
Lemma band_of_zero m : band_of_ratio (num 0 / m) = "#fbbf24".
Proof.
  change (num 0) with 0%float.
  destruct (zero_div_cases m) as [-> | [-> | ->]]; reflexivity.
Qed.

(** A non-zero safe total equal to the maximum is in the top band. *)
Lemma band_of_maximum z :
  z <> 0 -> Z.abs z < 2 ^ 53 -> band_of_ratio (num z / num z) = "#7f1d1d".
Proof.
  intros Hz Hb. destruct (num_finite z Hz Hb) as (m & e & Hfin).
  rewrite (div_self _ _ _ _ Hfin). reflexivity.
Qed.

(** On non-negative safe totals the visible maximum is the Number of the
    greatest total. *)
Lemma stats_max_greatest data loc :
  In loc data ->
  Forall (fun d => 0 <= totalVotes d <= totalVotes loc) data ->
  totalVotes loc < 2 ^ 53 ->
  max (stats data) = num (totalVotes loc).
Proof.
  intros Hin Hall Hb. destruct data as [|d rest]; [contradiction|].
  rewrite stats_nonempty. cbn [max]. unfold Math_max. cbn [map fold_left].
  inversion Hall as [|? ? Hd Hrest]; subst.
  rewrite Math_max2_neg_infinity by lia.
  rewrite <- (map_map totalVotes num).
  rewrite Math_max_from.
  - f_equal. apply fold_left_max_greatest; [lia| |].
    + apply Forall_map. eapply Forall_impl; [|exact Hrest]. cbn. intros; lia.
    + destruct Hin as [->|Hin]; [now left|right; now apply in_map].
  - lia.
  - apply Forall_map. eapply Forall_impl; [|exact Hrest]. cbn. intros; lia.
Qed.

(** C5, as the code has it.  In the heat view the colour of every location
    of the visible set is the band of the ratio of its total to the visible
    maximum (above 0.8 the darkest, above 0.6, above 0.4, above 0.2, else the
    lightest) and the emphasis is off; a location without votes is in the
    lowest band; a location whose total is the visible maximum is in the top
    band when that total is a non-zero safe integer.  In particular, when
    the totals are non-negative safe integers, a location with the greatest
    total is in the top band if that total is positive. *)
Theorem heat_bands : forall data : list LocationData,
  Forall (fun loc =>
    let st := stats data in
    let v := getVisuals heatmap st loc in
    max st = Math_max (map (fun d => num (totalVotes d)) data)
    /\ color v = band_of_ratio (num (totalVotes loc) / max st)
    /\ stroke v = false
    /\ (totalVotes loc = 0 -> color v = "#fbbf24")
    /\ (totalVotes loc <> 0 -> Z.abs (totalVotes loc) < 2 ^ 53 ->
        num (totalVotes loc) = max st -> color v = "#7f1d1d")
    /\ (Forall (fun d => 0 <= totalVotes d <= totalVotes loc) data ->
        0 < totalVotes loc < 2 ^ 53 ->
        num (totalVotes loc) = max st /\ color v = "#7f1d1d")) data.
Proof.
  intros data. apply Forall_forall. intros loc Hin. cbv zeta.
  assert (Hc : color (getVisuals heatmap (stats data) loc)
               = band_of_ratio (num (totalVotes loc) / max (stats data))).
  { unfold getVisuals, intensity. cbn [color]. apply heat_color_capped. }
  split; [destruct data; [contradiction|reflexivity]|].
  split; [exact Hc|]. split; [reflexivity|]. split; [|split].
  - intros Hz. rewrite Hc, Hz. apply band_of_zero.
  - intros Hz Hb Hmax. rewrite Hc, <- Hmax. now apply band_of_maximum.
  - intros Hall Hb.
    assert (Hmax : max (stats data) = num (totalVotes loc))
      by (apply stats_max_greatest; [exact Hin|exact Hall|lia]).
    split; [now symmetry|].
    rewrite Hc, Hmax. apply band_of_maximum; lia.
Qed.

(** Witness of C5: in [heat_example] the location with 50 votes has the
    greatest total and is in the top band, and the one without votes is in
    the lowest. *)
Lemma heat_bands_witness :
  color (getVisuals heatmap (stats heat_example) (location_of_total "c" 50)) = "#7f1d1d"
  /\ num (totalVotes (location_of_total "c" 50)) = max (stats heat_example)
  /\ color (getVisuals heatmap (stats heat_example) (location_of_total "a" 0)) = "#fbbf24".
Proof.
  pose proof (heat_bands heat_example) as H.
  rewrite Forall_forall in H.
  assert (Hc : In (location_of_total "c" 50) heat_example)
    by (right; right; left; reflexivity).
  assert (Ha : In (location_of_total "a" 0) heat_example)
    by (left; reflexivity).
  split; [|split].
  - refine (proj1 (proj2 (proj2 (proj2 (proj2 (H _ Hc))))) _ _ _).
    + discriminate.
    + vm_compute. reflexivity.
    + vm_compute. reflexivity.
  - refine (proj1 (proj2 (proj2 (proj2 (proj2 (proj2 (H _ Hc))))) _ _)).
    + repeat constructor; cbn; lia.
    + cbn. lia.
  - refine (proj1 (proj2 (proj2 (proj2 (H _ Ha)))) _). reflexivity.
Defined.

(** C5 as stated fails: in a visible set whose only total is 0 the location
    has the visible maximum, and it is in the lowest band, not the top one
    (the ratio 0/0 is NaN, which is above no threshold). *)
Lemma heat_maximum_zero_not_top :
  In (location_of_total "a" 0) [location_of_total "a" 0]
  /\ num (totalVotes (location_of_total "a" 0)) = max (stats [location_of_total "a" 0])
  /\ color (getVisuals heatmap (stats [location_of_total "a" 0]) (location_of_total "a" 0))
     = "#fbbf24"
  /\ color (getVisuals heatmap (stats [location_of_total "a" 0]) (location_of_total "a" 0))
     <> "#7f1d1d".
Proof.
  split; [left; reflexivity|]. split; [reflexivity|]. split; [reflexivity|].
  vm_compute. discriminate.
Qed.

(** The second words of the table keys; the key [DEFAULT] has none. *)
Lemma PARTY_COLORS_tokens :
  map (fun kc => token (fst kc)) PARTY_COLORS
  = [Some "CENTRO"; Some "HISTÓRICO"; Some "LIBERAL"; Some "CONSERVADOR";
     Some "VERDE"; None].
Proof. vm_compute. reflexivity. Qed.

(** The colour of the party view is the colour of the first table entry
    whose token occurs in the party name, and the default colour when there
    is none. *)
Lemma party_color_first_match w :
  party_color w
  = match find (fun kc => matches (JSString.or_else (Some w) "DEFAULT") (fst kc))
            PARTY_COLORS with
    | Some (_, c) => c
    | None => "#64748b"
    end.
Proof.
  unfold party_color. generalize (JSString.or_else (Some w) "DEFAULT"). intros p.
  unfold matches.
  change (map fst PARTY_COLORS)
    with ["PARTIDO CENTRO DEMOCRÁTICO"; "PACTO HISTÓRICO"; "PARTIDO LIBERAL";
          "PARTIDO CONSERVADOR"; "ALIANZA VERDE"; "DEFAULT"].
  unfold PARTY_COLORS at 3. cbn [find fst].
  change (token "PARTIDO CENTRO DEMOCRÁTICO") with (Some "CENTRO").
  change (token "PACTO HISTÓRICO") with (Some "HISTÓRICO").
  change (token "PARTIDO LIBERAL") with (Some "LIBERAL").
  change (token "PARTIDO CONSERVADOR") with (Some "CONSERVADOR").
  change (token "ALIANZA VERDE") with (Some "VERDE").
  change (token "DEFAULT") with (@None string).
  cbn [JSString.to_string].
  repeat match goal with
         | |- context [JSString.includes p ?x] =>
             destruct (JSString.includes p x)
         end; reflexivity.
Qed.

(** C8.  In the party view every location gets the same radius 8, the
    emphasis is off, and the opacity 0.8 is above the 0.6 of the heat view.
    The colour is found by substring containment: it is the colour of the
    first entry of [PARTY_COLORS] whose token (the second word of its key)
    occurs in the winning party, and the default colour [#64748b] when no
    entry matches; a string occurs in the winning party when the winning
    party is a prefix, that string and a suffix. *)
Theorem party_mode_visuals : forall (st : Stats) (loc : LocationData),
  let v := getVisuals party_mode st loc in
  let party := JSString.or_else (Some (winningParty loc)) "DEFAULT" in
  radius v = 8%float
  /\ stroke v = false
  /\ opacity v = 0.8%float
  /\ (opacity (getVisuals heatmap st loc) <? opacity v)%float = true
  /\ color v
     = match find (fun kc =>
                    JSString.includes party (JSString.to_string (token (fst kc))))
             PARTY_COLORS with
       | Some (_, c) => c
       | None => "#64748b"
       end
  /\ map (fun kc => token (fst kc)) PARTY_COLORS
     = [Some "CENTRO"; Some "HISTÓRICO"; Some "LIBERAL"; Some "CONSERVADOR";
        Some "VERDE"; None]
  /\ color_of PARTY_COLORS "DEFAULT" = Some "#64748b"
  /\ (forall needle : string,
        JSString.includes party needle = true
        <-> exists pre post : string, party = (pre ++ needle ++ post)%string).
Proof.
  intros st loc. cbv zeta. unfold getVisuals. cbn [radius stroke opacity color].
  do 4 (split; [reflexivity|]).
  split; [apply party_color_first_match|].
  split; [apply PARTY_COLORS_tokens|]. split; [reflexivity|].
  apply JSStringFacts.includes_spec.
Qed.

(** Witness of C8: in [filter_example] the location won by the Liberal
    party is red and the one won by the Pacto Histórico is purple. *)
Lemma party_mode_visuals_witness :
  map (fun loc => color (getVisuals party_mode (stats filter_example) loc))
    filter_example
  = ["#ef4444"; "#9333ea"].
Proof.
  unfold filter_example at 2. cbn [map].
  rewrite !(fun loc => proj1 (proj2 (proj2 (proj2 (proj2
              (party_mode_visuals (stats filter_example) loc)))))).
  reflexivity.
Defined.

End VoteMapFacts.

(* ----------------------------------------------------------------- *)
(** ** The filter engine *)

Section FilterFacts.

Variable filters : FilterState.

Lemma filter_true {A} (l : list A) : filter (fun _ => true) l = l.
Proof. induction l as [|x l IH]; simpl; congruence. Qed.

Lemma filter_andb {A} (f g : A -> bool) (l : list A) :
  filter g (filter f l) = filter (fun x => f x && g x) l.
Proof.
  induction l as [|x l IH]; simpl; [reflexivity|].
  destruct (f x); simpl; [destruct (g x)|]; rewrite IH; reflexivity.
Qed.

Lemma filter_subsequence {A} (f : A -> bool) (l : list A) :
  subsequence (filter f l) l.
Proof.
  induction l as [|x l IH]; simpl; [constructor|].
  destruct (f x); now constructor.
Qed.

Lemma has_party_spec p d :
  has_party p d = true
  <-> exists v, JSObject.get (parties d) p = Some v /\ 0 < v.
Proof.
  unfold has_party, JSObject.get_or0. rewrite Z.ltb_lt.
  destruct (JSObject.get (parties d) p) as [v|]; split.
  - intros H. now exists v.
  - intros (v' & [= <-] & H). exact H.
  - lia.
  - intros (v' & [=] & _).
Qed.

Lemma has_candidate_spec c d :
  has_candidate c d = true
  <-> exists v, JSObject.get (candidates d) c = Some v /\ 0 < v.
Proof.
  unfold has_candidate, JSObject.get_or0. rewrite Z.ltb_lt.
  destruct (JSObject.get (candidates d) c) as [v|]; split.
  - intros H. now exists v.
  - intros (v' & [= <-] & H). exact H.
  - lia.
  - intros (v' & [=] & _).
Qed.

Lemma party_stage_filter data :
  party_stage filters data
  = filter (fun d => String.eqb (party filters) ALL || has_party (party filters) d) data.
Proof.
  unfold party_stage. destruct (String.eqb (party filters) ALL); simpl.
  - now rewrite filter_true.
  - reflexivity.
Qed.

Lemma candidate_stage_filter data :
  candidate_stage filters data
  = filter (fun d => String.eqb (candidate filters) ALL
                     || has_candidate (candidate filters) d) data.
Proof.
  unfold candidate_stage. destruct (String.eqb (candidate filters) ALL); simpl.
  - now rewrite filter_true.
  - reflexivity.
Qed.

(** The three stages amount to one pass with the conjunction. *)
Lemma filteredData_filter data :
  filteredData data filters = filter (keep filters) data.
Proof.
  unfold filteredData, minVotes_stage.
  rewrite candidate_stage_filter, party_stage_filter, !filter_andb.
  apply filter_ext. intros d. unfold keep. now rewrite andb_assoc.
Qed.

Lemma keep_spec d :
  keep filters d = true
  <-> (party filters = ALL
       \/ exists v, JSObject.get (parties d) (party filters) = Some v /\ 0 < v)
      /\ (candidate filters = ALL
          \/ exists v, JSObject.get (candidates d) (candidate filters) = Some v /\ 0 < v)
      /\ minVotes filters <= totalVotes d.
Proof.
  unfold keep, reaches.
  rewrite !andb_true_iff, !orb_true_iff, !String.eqb_eq, Z.leb_le.
  rewrite has_party_spec, has_candidate_spec. tauto.
Qed.

Lemma stages_are_filters :
  Forall is_filter
    [party_stage filters; candidate_stage filters; minVotes_stage filters].
Proof.
  repeat constructor.
  - eexists. intros data. apply party_stage_filter.
  - eexists. intros data. apply candidate_stage_filter.
  - eexists. intros data. reflexivity.
Qed.

End FilterFacts.

(** Filters commute, so a pipeline of filters may run in any order. *)
Lemma run_stages_permutation stages1 stages2 :
  Permutation stages1 stages2 ->
  Forall is_filter stages1 ->
  forall data, run_stages stages1 data = run_stages stages2 data.
Proof.
  unfold run_stages.
  induction 1 as [|s l1 l2 Hp IH|s1 s2 l|l1 l2 l3 Hp1 IH1 Hp2 IH2]; intros Hf data.
  - reflexivity.
  - inversion Hf; subst. cbn [fold_left]. now apply IH.
  - inversion Hf as [|? ? (p1 & H1) Hf']; subst.
    inversion Hf' as [|? ? (p2 & H2) _]; subst.
    cbn [fold_left]. f_equal.
    rewrite H1, H2, H1, H2, !filter_andb.
    apply filter_ext. intros x. apply andb_comm.
  - rewrite IH1 by assumption. apply IH2.
    rewrite Forall_forall in Hf |- *. intros s Hs.
    apply Hf. eapply Permutation_in; [symmetry; exact Hp1|exact Hs].
Qed.

(** C3.  A location is in the output of the filter exactly when it is in
    the input and passes the three predicates: the party is the sentinel or
    the location's party mapping has a strictly positive entry for it, the
    same for the candidate, and the total reaches the threshold.  The
    mappings are objects, in which a key occurs once; an entry is a pair of
    the mapping, which is also what a read of the key gives. *)
Theorem filteredData_membership :
  forall (data : list LocationData) (filters : FilterState) (loc : LocationData),
  JSObject.wf (parties loc) ->
  JSObject.wf (candidates loc) ->
  (In loc (filteredData data filters)
   <-> In loc data
       /\ (party filters = ALL
           \/ exists v, In (party filters, v) (parties loc) /\ 0 < v)
       /\ (candidate filters = ALL
           \/ exists v, In (candidate filters, v) (candidates loc) /\ 0 < v)
       /\ minVotes filters <= totalVotes loc)
  /\ (In loc (filteredData data filters)
      <-> In loc data
          /\ (party filters = ALL
              \/ exists v, JSObject.get (parties loc) (party filters) = Some v /\ 0 < v)
          /\ (candidate filters = ALL
              \/ exists v,
                   JSObject.get (candidates loc) (candidate filters) = Some v /\ 0 < v)
          /\ minVotes filters <= totalVotes loc).
Proof.
  intros data filters loc Hp Hc.
  assert (Hget : In loc (filteredData data filters)
      <-> In loc data
          /\ (party filters = ALL
              \/ exists v, JSObject.get (parties loc) (party filters) = Some v /\ 0 < v)
          /\ (candidate filters = ALL
              \/ exists v,
                   JSObject.get (candidates loc) (candidate filters) = Some v /\ 0 < v)
          /\ minVotes filters <= totalVotes loc).
  { rewrite filteredData_filter, filter_In, keep_spec. reflexivity. }
  split; [|exact Hget]. rewrite Hget.
  assert (Hin : forall o k, JSObject.wf o ->
            (exists v, JSObject.get o k = Some v /\ 0 < v)
            <-> (exists v, In (k, v) o /\ 0 < v)).
  { intros o k Hwf. split; intros (v & H & Hv); exists v; split; try exact Hv.
    - now apply JSObjectFacts.get_In.
    - now apply JSObjectFacts.In_get. }
  rewrite (Hin _ (party filters) Hp), (Hin _ (candidate filters) Hc). reflexivity.
Qed.

(** Witness of C3: filtered on the Liberal party with a threshold of 10,
    [filter_example] keeps the location IE Belén, which has 20 votes for the
    party and 30 in all, and drops the other, which has none. *)
Lemma filteredData_membership_witness :
  Forall (fun loc => In loc (filteredData filter_example liberal_filter)
                     <-> name loc = "IE Belén") filter_example.
Proof.
  assert (Hwf : Forall (fun loc => JSObject.wf (parties loc)
                                   /\ JSObject.wf (candidates loc)) filter_example).
  { repeat constructor; cbn; intuition discriminate. }
  unfold filter_example in *.
  inversion Hwf as [|belen ? [Hp1 Hc1] Hwf']; subst.
  inversion Hwf' as [|laureles ? [Hp2 Hc2] _]; subst.
  apply Forall_cons; [|apply Forall_cons; [|apply Forall_nil]].
  - destruct (filteredData_membership filter_example liberal_filter _ Hp1 Hc1)
      as [H _].
    split; [reflexivity|]. intros _. apply H.
    split; [now left|]. split; [|split; [now left|cbn; lia]].
    right. exists 20. split; [now left|lia].
  - destruct (filteredData_membership filter_example liberal_filter _ Hp2 Hc2)
      as [H _].
    split; [|discriminate]. intros Hin. apply H in Hin.
    destruct Hin as (_ & [Hin|(v & [Hin|[]] & _)] & _); discriminate Hin.
Defined.

(** C7.  Filtering twice is filtering once; the output is the input with
    some locations left out, the others in their order; and the three
    stages give the same result in whatever order they run. *)
Theorem filteredData_idempotent_ordered :
  forall (data : list LocationData) (filters : FilterState),
  filteredData (filteredData data filters) filters = filteredData data filters
  /\ subsequence (filteredData data filters) data
  /\ filteredData data filters = filter (keep filters) data
  /\ (forall stages,
        Permutation stages
          [party_stage filters; candidate_stage filters; minVotes_stage filters] ->
        run_stages stages data = filteredData data filters).
Proof.
  intros data filters. split; [|split; [|split]].
  - rewrite !filteredData_filter, filter_andb.
    apply filter_ext. intros d. now destruct (keep filters d).
  - rewrite filteredData_filter. apply filter_subsequence.
  - apply filteredData_filter.
  - intros stages Hp.
    rewrite (run_stages_permutation _ _ Hp).
    + reflexivity.
    + rewrite Forall_forall. intros s Hs.
      pose proof (stages_are_filters filters) as Hf. rewrite Forall_forall in Hf.
      apply Hf. eapply Permutation_in; [exact Hp|exact Hs].
Qed.

(** Witness of C7: the threshold first, then the candidate, then the party. *)
Lemma filteredData_order_witness :
  run_stages
    [minVotes_stage liberal_filter; candidate_stage liberal_filter;
     party_stage liberal_filter] filter_example
  = filteredData filter_example liberal_filter.
Proof.
  refine (proj2 (proj2 (proj2
            (filteredData_idempotent_ordered filter_example liberal_filter))) _ _).
  eapply perm_trans; [apply perm_swap|].
  eapply perm_trans; [apply perm_skip, perm_swap|].
  apply perm_swap.
Defined.

(** C9.  On locations of non-negative totals the initial filter state
    (threshold 0, both selections on the sentinel) returns its input. *)
Theorem default_filters_identity : forall data : list LocationData,
  Forall (fun d => 0 <= totalVotes d) data ->
  filteredData data default_filters = data.
Proof.
  intros data Hpos. rewrite filteredData_filter.
  induction Hpos as [|d data Hd _ IH]; [reflexivity|].
  cbn [filter]. unfold keep at 1, reaches. cbn.
  apply Z.leb_le in Hd. rewrite Hd, IH. reflexivity.
Qed.

(** Witness of C9. *)
Lemma default_filters_identity_witness :
  filteredData filter_example default_filters = filter_example.
Proof.
  apply (default_filters_identity filter_example).
  repeat constructor; cbn; lia.
Defined.

(* ----------------------------------------------------------------- *)
(** ** The simulated live stream *)

Lemma tick_location_preserves d loc :
  draw_ok d -> tick_preserves loc (tick_location d loc).
Proof.
  unfold draw_ok, tick_location, tick_preserves. intros Hd.
  destruct (hit d); cbn; repeat split; lia.
Qed.

Lemma tick_from_preserves draws prev : forall i,
  (forall j, draw_ok (draws j)) ->
  Forall2 tick_preserves prev (tick_from draws i prev).
Proof.
  induction prev as [|loc rest IH]; intros i Hd; cbn [tick_from]; constructor.
  - apply tick_location_preserves, Hd.
  - apply IH, Hd.
Qed.

Lemma tick_preserves_keys prev next :
  Forall2 tick_preserves prev next ->
  map location_key next = map location_key prev.
Proof.
  induction 1 as [|old new prev next H _ IH]; [reflexivity|].
  cbn [map]. rewrite IH. unfold location_key.
  destruct H as (_ & -> & -> & _). reflexivity.
Qed.

(** C6.  Whatever is drawn in a tick, every location of the new sequence is
    the location at the same place of the old one with a total that is not
    smaller and every other field (name, parent, coordinates, the party and
    candidate mappings, the winning party) unchanged; the location keys are
    the same, in the same order. *)
Theorem tick_only_raises_totals :
  forall (draws : nat -> Draw) (prev : list LocationData),
  (forall i, draw_ok (draws i)) ->
  Forall2 tick_preserves prev (tick draws prev)
  /\ map location_key (tick draws prev) = map location_key prev.
Proof.
  intros draws prev Hd.
  assert (H : Forall2 tick_preserves prev (tick draws prev))
    by (apply tick_from_preserves, Hd).
  split; [exact H|]. now apply tick_preserves_keys.
Qed.

(** Witness of C6. *)
Lemma tick_only_raises_totals_witness :
  Forall2 tick_preserves filter_example (tick alternate_draws filter_example)
  /\ map location_key (tick alternate_draws filter_example)
     = map location_key filter_example.
Proof.
  apply (tick_only_raises_totals alternate_draws filter_example).
  intros i. unfold draw_ok, alternate_draws. cbn. lia.
Defined.

(* ----------------------------------------------------------------- *)
(** ** The aggregator *)

Module AggregatorFacts.
  Import Aggregator JSObjectFacts.

Lemma add_record_balanced r l : balanced l -> balanced (add_record r l).
Proof.
  unfold balanced, add_record. cbn. intros [Hp Hc].
  rewrite !values_sum_set. lia.
Qed.

Lemma upsert_balanced r acc :
  Forall balanced acc -> Forall balanced (upsert r acc).
Proof.
  induction 1 as [|l acc Hl Hacc IH]; cbn [upsert].
  - constructor; [|constructor]. apply add_record_balanced. split; reflexivity.
  - destruct (same_location r l).
    + constructor; [now apply add_record_balanced|exact Hacc].
    + constructor; [exact Hl|exact IH].
Qed.

Lemma upsert_sum r acc :
  sum_totalVotes (upsert r acc) = sum_totalVotes acc + voteCount r.
Proof.
  induction acc as [|l acc IH]; cbn [upsert].
  - cbn. lia.
  - destruct (same_location r l); cbn [sum_totalVotes fold_right] in *.
    + cbn. lia.
    + fold (sum_totalVotes (upsert r acc)). fold (sum_totalVotes acc). lia.
Qed.

Lemma groups_invariant records : forall acc,
  Forall balanced acc ->
  Forall balanced (fold_left (fun acc r => upsert r acc) records acc)
  /\ sum_totalVotes (fold_left (fun acc r => upsert r acc) records acc)
     = sum_totalVotes acc + sum_voteCount records.
Proof.
  induction records as [|r records IH]; intros acc Hacc; cbn [fold_left].
  - split; [exact Hacc|]. cbn. lia.
  - destruct (IH (upsert r acc) (upsert_balanced r acc Hacc)) as [Hb Hs].
    split; [exact Hb|]. rewrite Hs, upsert_sum. cbn [sum_voteCount fold_right].
    fold (sum_voteCount records). lia.
Qed.

Lemma with_winner_sum groups :
  sum_totalVotes (map with_winner groups) = sum_totalVotes groups.
Proof.
  induction groups as [|l groups IH]; [reflexivity|].
  cbn [map sum_totalVotes fold_right] in *.
  fold (sum_totalVotes (map with_winner groups)). fold (sum_totalVotes groups).
  rewrite IH. reflexivity.
Qed.

(** C2.  For every sequence of vote records, each location of the aggregate
    has a total equal to the sum of its party mapping and to the sum of its
    candidate mapping, and the totals of the aggregate add up to the vote
    counts of the records. *)
Theorem aggregate_preserves_votes : forall records : list VoteRecord,
  Forall (fun l =>
            totalVotes l = JSObject.values_sum (parties l)
            /\ totalVotes l = JSObject.values_sum (candidates l))
         (aggregateByLocation records)
  /\ sum_totalVotes (aggregateByLocation records) = sum_voteCount records.
Proof.
  intros records. unfold aggregateByLocation.
  destruct (groups_invariant records [] (Forall_nil _)) as [Hb Hs].
  split.
  - apply Forall_map. eapply Forall_impl; [|exact Hb].
    intros l Hl. exact Hl.
  - rewrite with_winner_sum, Hs. reflexivity.
Qed.

End AggregatorFacts.

(* ----------------------------------------------------------------- *)
(** ** The stable descending sort *)

Section SortFacts.

Lemma insert_desc_perm e l : Permutation (insert_desc e l) (e :: l).
Proof.
  induction l as [|x l IH]; cbn [insert_desc]; [reflexivity|].
  destruct (snd e <? snd x); [|reflexivity].
  rewrite IH. apply perm_swap.
Qed.

Lemma sort_desc_perm l : Permutation (sort_desc l) l.
Proof.
  induction l as [|x l IH]; cbn [sort_desc fold_right]; [reflexivity|].
  fold (sort_desc l). rewrite insert_desc_perm. now constructor.
Qed.

Lemma insert_desc_sorted e l :
  StronglySorted by_value_desc l -> StronglySorted by_value_desc (insert_desc e l).
Proof.
  induction 1 as [|x l Hs IH Hx]; cbn [insert_desc].
  - repeat constructor.
  - destruct (snd e <? snd x) eqn:E.
    + apply Z.ltb_lt in E. constructor; [exact IH|].
      rewrite Forall_forall in Hx |- *. intros y Hy.
      apply (Permutation_in _ (insert_desc_perm e l)) in Hy.
      destruct Hy as [<-|Hy]; [unfold by_value_desc; lia|now apply Hx].
    + apply Z.ltb_ge in E. constructor; [now constructor|].
      constructor; [exact E|].
      rewrite Forall_forall in Hx |- *. intros y Hy.
      specialize (Hx y Hy). unfold by_value_desc in *. lia.
Qed.

Lemma sort_desc_sorted l : StronglySorted by_value_desc (sort_desc l).
Proof.
  induction l as [|x l IH]; cbn [sort_desc fold_right]; [constructor|].
  now apply insert_desc_sorted.
Qed.

(** The sort is stable: the entries of one value keep their order. *)
Lemma insert_desc_filter v e l :
  filter (fun x => snd x =? v) (insert_desc e l)
  = filter (fun x => snd x =? v) (e :: l).
Proof.
  induction l as [|x l IH]; cbn [insert_desc]; [reflexivity|].
  destruct (snd e <? snd x) eqn:E; [|reflexivity].
  apply Z.ltb_lt in E. cbn [filter] in *. rewrite IH.
  destruct (snd x =? v) eqn:Ex, (snd e =? v) eqn:Ee; try reflexivity.
  apply Z.eqb_eq in Ex, Ee. lia.
Qed.

Lemma sort_desc_stable v l :
  filter (fun x => snd x =? v) (sort_desc l) = filter (fun x => snd x =? v) l.
Proof.
  induction l as [|x l IH]; cbn [sort_desc fold_right]; [reflexivity|].
  fold (sort_desc l). rewrite insert_desc_filter. cbn [filter]. now rewrite IH.
Qed.

Lemma StronglySorted_app_inv {A} (R : A -> A -> Prop) l1 l2 :
  StronglySorted R (l1 ++ l2) ->
  StronglySorted R l1 /\ Forall (fun a => Forall (R a) l2) l1.
Proof.
  induction l1 as [|x l1 IH]; cbn [app]; intros H.
  - split; constructor.
  - inversion H as [|? ? Hs Hx]; subst. destruct (IH Hs) as [H1 H2].
    apply Forall_app in Hx. destruct Hx as [Hx1 Hx2].
    split; constructor; auto.
Qed.

Lemma precedes_app {A} (l rest : list A) a b :
  precedes l a b -> precedes (l ++ rest) a b.
Proof.
  intros (l1 & l2 & l3 & ->). exists l1, l2, (l3 ++ rest).
  now rewrite <- !app_assoc, <- !app_comm_cons, <- app_assoc.
Qed.

Lemma precedes_filter {A} (f : A -> bool) l a b :
  precedes l a b -> f a = true -> f b = true -> precedes (filter f l) a b.
Proof.
  intros (l1 & l2 & l3 & ->) Ha Hb.
  exists (filter f l1), (filter f l2), (filter f l3).
  rewrite filter_app. cbn [filter]. rewrite Ha, filter_app. cbn [filter].
  now rewrite Hb.
Qed.

Lemma filter_cons_inv {A} (f : A -> bool) l a r :
  filter f l = a :: r -> exists l1 l2, l = l1 ++ a :: l2 /\ filter f l2 = r.
Proof.
  induction l as [|x l IH]; cbn [filter]; [discriminate|].
  destruct (f x).
  - intros [= -> <-]. now exists [], l.
  - intros H. destruct (IH H) as (l1 & l2 & -> & Hr).
    now exists (x :: l1), l2.
Qed.

Lemma filter_app_inv {A} (f : A -> bool) l r1 r2 :
  filter f l = r1 ++ r2 ->
  exists l1 l2, l = l1 ++ l2 /\ filter f l2 = r2.
Proof.
  revert l. induction r1 as [|a r1 IH]; cbn [app]; intros l H.
  - now exists [], l.
  - apply filter_cons_inv in H. destruct H as (l1 & l2 & -> & H).
    destruct (IH l2 H) as (l3 & l4 & -> & H4).
    exists (l1 ++ a :: l3), l4. split; [|exact H4].
    now rewrite <- app_assoc.
Qed.

Lemma precedes_unfilter {A} (f : A -> bool) l a b :
  precedes (filter f l) a b -> precedes l a b.
Proof.
  intros (r1 & r2 & r3 & H).
  apply filter_app_inv in H. destruct H as (l1 & l2 & -> & H).
  apply filter_cons_inv in H. destruct H as (l3 & l4 & -> & H).
  apply filter_app_inv in H. destruct H as (l5 & l6 & -> & H).
  apply filter_cons_inv in H. destruct H as (l7 & l8 & -> & _).
  exists (l1 ++ l3), (l5 ++ l7), l8.
  now rewrite <- !app_assoc.
Qed.

Lemma firstn_sorted {A} (R : A -> A -> Prop) n l :
  StronglySorted R l -> StronglySorted R (firstn n l).
Proof.
  intros H. rewrite <- (firstn_skipn n l) in H.
  now apply StronglySorted_app_inv in H.
Qed.

Lemma sum_values_perm l1 l2 : Permutation l1 l2 -> sum_values l1 = sum_values l2.
Proof. unfold sum_values. induction 1; cbn [fold_right]; lia. Qed.

Lemma sum_values_app l1 l2 : sum_values (l1 ++ l2) = sum_values l1 + sum_values l2.
Proof.
  unfold sum_values. induction l1 as [|x l1 IH]; cbn [app fold_right]; lia.
Qed.

Lemma sum_values_nonneg l : Forall (fun e => 0 <= snd e) l -> 0 <= sum_values l.
Proof. unfold sum_values. induction 1; cbn [fold_right]; lia. Qed.

Lemma sum_values_filter (f : string * Z -> bool) l :
  Forall (fun e => 0 <= snd e) l -> sum_values (filter f l) <= sum_values l.
Proof.
  unfold sum_values. induction 1 as [|x l Hx _ IH]; cbn [filter fold_right]; [lia|].
  destruct (f x); cbn [fold_right]; lia.
Qed.

End SortFacts.

(* ----------------------------------------------------------------- *)
(** ** The order of [Object.entries] *)

Module EntriesOrder.
Import JSObject JSObjectFacts.

Lemma digit_value c d : digit c = Some d -> N_of_ascii c = (d + 48)%N /\ (d <= 9)%N.
Proof.
  unfold digit. destruct ((48 <=? N_of_ascii c) && (N_of_ascii c <=? 57))%N eqn:E;
    [|discriminate].
  apply andb_true_iff in E. destruct E as [E1 E2].
  apply N.leb_le in E1, E2. intros [= <-]. lia.
Qed.

Lemma digit_inj c1 c2 d : digit c1 = Some d -> digit c2 = Some d -> c1 = c2.
Proof.
  intros H1 H2. apply digit_value in H1, H2.
  rewrite <- (ascii_N_embedding c1), <- (ascii_N_embedding c2).
  destruct H1 as [-> _], H2 as [-> _]. reflexivity.
Qed.

(** The digits of [s] are appended to those of [acc]. *)
Lemma parse_digits_value s : forall acc v,
  parse_digits s acc = Some v ->
  exists w, (w < 10 ^ N.of_nat (String.length s))%N
            /\ v = (acc * 10 ^ N.of_nat (String.length s) + w)%N.
Proof.
  induction s as [|c s IH]; intros acc v; cbn [parse_digits String.length].
  - intros [= <-]. exists 0%N. cbn. lia.
  - destruct (digit c) as [d|] eqn:Ed; [|discriminate].
    intros H. destruct (IH _ _ H) as (w & Hw & ->).
    apply digit_value in Ed. destruct Ed as [_ Hd].
    rewrite Nat2N.inj_succ, N.pow_succ_r'.
    set (P := (10 ^ N.of_nat (String.length s))%N) in *.
    exists (d * P + w)%N. split; nia.
Qed.

Lemma parse_digits_inj s1 : forall s2 acc v,
  String.length s1 = String.length s2 ->
  parse_digits s1 acc = Some v -> parse_digits s2 acc = Some v -> s1 = s2.
Proof.
  induction s1 as [|c1 s1 IH]; intros [|c2 s2] acc v Hl; try discriminate Hl.
  - reflexivity.
  - cbn [parse_digits]. injection Hl as Hl.
    destruct (digit c1) as [d1|] eqn:E1; [|discriminate].
    destruct (digit c2) as [d2|] eqn:E2; [|discriminate].
    intros H1 H2.
    destruct (parse_digits_value _ _ _ H1) as (w1 & Hw1 & Hv1).
    destruct (parse_digits_value _ _ _ H2) as (w2 & Hw2 & Hv2).
    rewrite <- Hl in Hw2, Hv2.
    set (P := (10 ^ N.of_nat (String.length s1))%N) in *.
    assert (d1 = d2) by nia. subst d2.
    f_equal; [exact (digit_inj _ _ _ E1 E2)|exact (IH _ _ _ Hl H1 H2)].
Qed.

(** An array index has one canonical form. *)
Lemma array_index_inj k1 k2 n :
  array_index k1 = Some n -> array_index k2 = Some n -> k1 = k2.
Proof.
  assert (Hz : forall c r, Ascii.eqb c "0" = false ->
               parse_digits (String c r) 0 = Some n ->
               (10 ^ N.of_nat (String.length r) <= n
                < 10 * 10 ^ N.of_nat (String.length r))%N).
  { intros c r Hc. cbn [parse_digits].
    destruct (digit c) as [d|] eqn:Ed; [|discriminate].
    intros H. destruct (parse_digits_value _ _ _ H) as (w & Hw & ->).
    pose proof (digit_value _ _ Ed) as [Hn Hd].
    assert (d <> 0)%N.
    { intros ->. apply Ascii.eqb_neq in Hc. apply Hc.
      rewrite <- (ascii_N_embedding c), Hn. reflexivity. }
    nia. }
  destruct k1 as [|c1 r1]; [discriminate|].
  destruct k2 as [|c2 r2]; [discriminate|].
  unfold array_index.
  destruct (Ascii.eqb c1 "0") eqn:E1, (Ascii.eqb c2 "0") eqn:E2.
  - apply Ascii.eqb_eq in E1, E2. subst.
    destruct r1; [|discriminate]. destruct r2; [|discriminate]. reflexivity.
  - destruct r1; [|discriminate]. intros [= <-].
    destruct (parse_digits (String c2 r2) 0) as [m|] eqn:H2; [|discriminate].
    destruct (m <? 4294967295)%N; [|discriminate]. intros [= ->].
    pose proof (parse_digits_value _ _ _ H2) as (w & Hw & Hv).
    exfalso. revert H2. cbn [parse_digits].
    destruct (digit c2) as [d|] eqn:Ed; [|discriminate].
    intros H. destruct (parse_digits_value _ _ _ H) as (w' & Hw' & Hv').
    pose proof (digit_value _ _ Ed) as [Hn Hd].
    assert (d <> 0)%N.
    { intros ->. apply Ascii.eqb_neq in E2. apply E2.
      rewrite <- (ascii_N_embedding c2), Hn. reflexivity. }
    nia.
  - destruct r2; [|discriminate].
    destruct (parse_digits (String c1 r1) 0) as [m|] eqn:H1; [|discriminate].
    destruct (m <? 4294967295)%N; [|discriminate]. intros [= ->] [= Hn0].
    exfalso. revert H1. cbn [parse_digits].
    destruct (digit c1) as [d|] eqn:Ed; [|discriminate].
    intros H. destruct (parse_digits_value _ _ _ H) as (w' & Hw' & Hv').
    pose proof (digit_value _ _ Ed) as [Hn Hd].
    assert (d <> 0)%N.
    { intros ->. apply Ascii.eqb_neq in E1. apply E1.
      rewrite <- (ascii_N_embedding c1), Hn. reflexivity. }
    nia.
  - destruct (parse_digits (String c1 r1) 0) as [m1|] eqn:H1; [|discriminate].
    destruct (m1 <? 4294967295)%N; [|discriminate]. intros [= ->].
    destruct (parse_digits (String c2 r2) 0) as [m2|] eqn:H2; [|discriminate].
    destruct (m2 <? 4294967295)%N; [|discriminate]. intros [= ->].
    pose proof (Hz _ _ E1 H1) as B1. pose proof (Hz _ _ E2 H2) as B2.
    assert (Hl : String.length r1 = String.length r2).
    { destruct (Nat.lt_trichotomy (String.length r1) (String.length r2))
        as [Hlt|[Heq|Hlt]]; [exfalso|exact Heq|exfalso].
      - assert (10 * 10 ^ N.of_nat (String.length r1)
                <= 10 ^ N.of_nat (String.length r2))%N; [|lia].
        rewrite <- N.pow_succ_r'. apply N.pow_le_mono_r; lia.
      - assert (10 * 10 ^ N.of_nat (String.length r2)
                <= 10 ^ N.of_nat (String.length r1))%N; [|lia].
        rewrite <- N.pow_succ_r'. apply N.pow_le_mono_r; lia. }
    apply (parse_digits_inj _ _ 0%N n); [cbn; now rewrite Hl|exact H1|exact H2].
Qed.

Lemma insert_index_sorted e l :
  StronglySorted (fun x y => (index_of x <= index_of y)%N) l ->
  StronglySorted (fun x y => (index_of x <= index_of y)%N) (insert_index e l).
Proof.
  induction 1 as [|x l Hs IH Hx]; cbn [insert_index].
  - repeat constructor.
  - destruct (index_of x <? index_of e)%N eqn:E.
    + apply N.ltb_lt in E. constructor; [exact IH|].
      apply (Permutation_Forall (Permutation_sym (insert_index_perm e l))).
      constructor; [lia|exact Hx].
    + apply N.ltb_ge in E. constructor; [now constructor|].
      constructor; [exact E|].
      rewrite Forall_forall in Hx |- *. intros y Hy. specialize (Hx y Hy). lia.
Qed.

Lemma sort_index_sorted l :
  StronglySorted (fun x y => (index_of x <= index_of y)%N) (sort_index l).
Proof.
  induction l as [|x l IH]; cbn [sort_index fold_right]; [constructor|].
  now apply insert_index_sorted.
Qed.

Lemma StronglySorted_tail {A} (R : A -> A -> Prop) l1 l2 :
  StronglySorted R (l1 ++ l2) -> StronglySorted R l2.
Proof.
  induction l1 as [|x l1 IH]; cbn [app]; intros H; [exact H|].
  inversion H; auto.
Qed.

Lemma sorted_precedes {A} (R : A -> A -> Prop) l a b :
  StronglySorted R l -> precedes l a b -> R a b.
Proof.
  intros Hs (l1 & l2 & l3 & ->).
  apply StronglySorted_tail in Hs. inversion Hs as [|? ? _ Hall]; subst.
  rewrite Forall_forall in Hall. apply Hall, in_or_app. right. now left.
Qed.

Lemma precedes_cons {A} (x : A) l a b : precedes l a b -> precedes (x :: l) a b.
Proof. intros (l1 & l2 & l3 & ->). now exists (x :: l1), l2, l3. Qed.

Lemma precedes_head {A} (a b : A) l : In b l -> precedes (a :: l) a b.
Proof.
  intros H. apply in_split in H. destruct H as (l2 & l3 & ->).
  now exists [], l2, l3.
Qed.

Lemma precedes_cons_inv {A} (x : A) l a b :
  precedes (x :: l) a b -> (x = a /\ In b l) \/ precedes l a b.
Proof.
  intros (l1 & l2 & l3 & H). destruct l1 as [|y l1]; cbn [app] in H.
  - injection H as -> ->. left. split; [reflexivity|].
    apply in_or_app. right. now left.
  - injection H as -> ->. right. now exists l1, l2, l3.
Qed.

Lemma precedes_In {A} (l : list A) a b : precedes l a b -> In a l /\ In b l.
Proof.
  intros (l1 & l2 & l3 & ->). split.
  - apply in_or_app. right. now left.
  - apply in_or_app. right. right. apply in_or_app. right. now left.
Qed.

(** Two elements of a concatenation are both in the first part, both in
    the second, or the earlier in the first and the later in the second. *)
Lemma precedes_app_cases {A} (l1 l2 : list A) a b :
  precedes (l1 ++ l2) a b ->
  precedes l1 a b \/ precedes l2 a b \/ (In a l1 /\ In b l2).
Proof.
  induction l1 as [|x l1 IH]; cbn [app]; intros H; [now right; left|].
  apply precedes_cons_inv in H. destruct H as [[-> Hb]|H].
  - apply in_app_or in Hb. destruct Hb as [Hb|Hb].
    + left. now apply precedes_head.
    + right. right. split; [now left|exact Hb].
  - destruct (IH H) as [H1|[H2|[Ha Hb]]].
    + left. now apply precedes_cons.
    + right. now left.
    + right. right. split; [now right|exact Hb].
Qed.

Lemma precedes_map {A B} (f : A -> B) l a b :
  precedes l a b -> precedes (map f l) (f a) (f b).
Proof.
  intros (l1 & l2 & l3 & ->). exists (map f l1), (map f l2), (map f l3).
  now rewrite map_app, map_cons, map_app, map_cons.
Qed.

Lemma precedes_distinct {A} (l : list A) a b : NoDup l -> precedes l a b -> a <> b.
Proof.
  intros Hnd (l1 & l2 & l3 & ->) <-.
  apply NoDup_remove_2 in Hnd. apply Hnd.
  apply in_or_app. right. apply in_or_app. right. now left.
Qed.

Lemma NoDup_map_filter {A B} (f : A -> B) (p : A -> bool) l :
  NoDup (map f l) -> NoDup (map f (filter p l)).
Proof.
  induction l as [|x l IH]; cbn [map filter]; intros H; [constructor|].
  inversion H as [|? ? Hx Hl]; subst. destruct (p x); cbn [map]; [|auto].
  constructor; [|auto]. intros Hin. apply Hx.
  apply in_map_iff in Hin. destruct Hin as (y & Hy & Hin).
  apply filter_In in Hin. rewrite <- Hy. apply in_map, Hin.
Qed.

Lemma is_index_spec e :
  is_index e = true -> array_index (fst e) = Some (index_of e).
Proof.
  unfold is_index, index_of. now destruct (array_index (fst e)).
Qed.

Lemma is_not_index_spec e : negb (is_index e) = true -> array_index (fst e) = None.
Proof.
  unfold is_index. now destruct (array_index (fst e)).
Qed.

(** [Object.entries] lists the array indices first, in ascending numeric
    order, and then the other keys in the order of their creation. *)
Lemma entries_order o a b :
  wf o -> precedes (entries o) a b -> enumerated_before (keys o) (fst a) (fst b).
Proof.
  unfold wf, keys, entries, enumerated_before. intros Hwf H.
  apply precedes_app_cases in H. destruct H as [H|[H|[Ha Hb]]].
  - pose proof (precedes_In _ _ _ H) as [Ha Hb].
    apply (Permutation_in _ (sort_index_perm _)) in Ha, Hb.
    apply filter_In in Ha, Hb. destruct Ha as [_ Ha], Hb as [_ Hb].
    pose proof (is_index_spec _ Ha) as Ea. pose proof (is_index_spec _ Hb) as Eb.
    rewrite Ea, Eb.
    pose proof (sorted_precedes _ _ _ _ (sort_index_sorted _) H) as Hle.
    cbv beta in Hle.
    assert (Hne : fst a <> fst b).
    { apply (precedes_distinct (map fst (sort_index (filter is_index o)))).
      - apply (Permutation_NoDup (l := map fst (filter is_index o))).
        + apply Permutation_map. symmetry. apply sort_index_perm.
        + now apply NoDup_map_filter.
      - now apply precedes_map. }
    assert (index_of a <> index_of b); [|lia].
    intros Heq. apply Hne. apply (array_index_inj _ _ (index_of a)); congruence.
  - pose proof (precedes_In _ _ _ H) as [Ha Hb].
    apply filter_In in Ha, Hb. destruct Ha as [_ Ha], Hb as [_ Hb].
    rewrite (is_not_index_spec _ Ha), (is_not_index_spec _ Hb).
    apply precedes_map. eapply precedes_unfilter. exact H.
  - apply (Permutation_in _ (sort_index_perm _)) in Ha.
    apply filter_In in Ha, Hb. destruct Ha as [_ Ha], Hb as [_ Hb].
    now rewrite (is_index_spec _ Ha), (is_not_index_spec _ Hb).
Qed.

End EntriesOrder.

(* ----------------------------------------------------------------- *)
(** ** Analytics *)

Module AnalyticsFacts.
  Import JSObject JSObjectFacts.

(** The guard of the tally is a filter on the visited entries. *)
Lemma tally_as_filter sel l : forall acc,
  fold_left (tally sel) l acc
  = fold_left add_entry (filter (fun e => selected sel (fst e)) l) acc.
Proof.
  induction l as [|e l IH]; intros acc; cbn [fold_left filter]; [reflexivity|].
  unfold tally at 2. destruct (selected sel (fst e)); cbn [fold_left]; apply IH.
Qed.

Lemma board_from sel proj visible : forall acc,
  fold_left (fun acc loc => tally_object sel acc (proj loc)) visible acc
  = fold_left add_entry (tallied sel proj visible) acc.
Proof.
  unfold tallied.
  induction visible as [|loc visible IH]; intros acc; cbn [fold_left flat_map];
    [reflexivity|].
  rewrite fold_left_app, IH. unfold tally_object. now rewrite tally_as_filter.
Qed.

Lemma board_tallied sel proj visible :
  board sel proj visible = fold_left add_entry (tallied sel proj visible) [].
Proof. apply board_from. Qed.

(** The two totals objects do not depend on each other. *)
Lemma totals_of_from filters visible : forall st,
  fold_left (tally_location filters) visible st
  = (fold_left (fun acc loc => tally_object (party filters) acc (parties loc))
       visible (fst st),
     fold_left (fun acc loc => tally_object (candidate filters) acc (candidates loc))
       visible (snd st)).
Proof.
  induction visible as [|loc visible IH]; intros [pt ct]; cbn [fold_left];
    [reflexivity|].
  rewrite IH. reflexivity.
Qed.

Lemma totals_of_boards filters visible :
  totals_of filters visible
  = (board (party filters) parties visible,
     board (candidate filters) candidates visible).
Proof. unfold totals_of. now rewrite totals_of_from. Qed.

Lemma keys_add_entry acc e :
  keys (add_entry acc e)
  = if existsb (String.eqb (fst e)) (keys acc) then keys acc else keys acc ++ [fst e].
Proof. unfold add_entry. apply keys_set. Qed.

(** The keys of the totals are created in first-seen order. *)
Lemma keys_fold_add l : forall acc,
  keys (fold_left add_entry l acc) = keys acc ++ fresh (keys acc) (map fst l).
Proof.
  induction l as [|e l IH]; intros acc; cbn [fold_left map fresh].
  - now rewrite app_nil_r.
  - rewrite IH, keys_add_entry.
    destruct (existsb (String.eqb (fst e)) (keys acc)); [reflexivity|].
    now rewrite <- app_assoc.
Qed.

Lemma wf_fold_add l : forall acc, wf acc -> wf (fold_left add_entry l acc).
Proof.
  induction l as [|e l IH]; intros acc Hwf; cbn [fold_left]; [exact Hwf|].
  apply IH. unfold add_entry. now apply wf_set.
Qed.

Lemma get_or0_add_entry acc e k :
  get_or0 (add_entry acc e) k
  = get_or0 acc k + (if String.eqb k (fst e) then snd e else 0).
Proof.
  unfold add_entry, get_or0 at 1.
  destruct (String.eqb k (fst e)) eqn:E.
  - apply String.eqb_eq in E. subst k. now rewrite get_set_same.
  - apply String.eqb_neq in E. rewrite get_set_other by congruence.
    unfold get_or0. destruct (get acc k); lia.
Qed.

(** The value of a key in the totals is the sum of what was visited. *)
Lemma get_or0_fold_add k l : forall acc,
  get_or0 (fold_left add_entry l acc) k = get_or0 acc k + sum_of_key k l.
Proof.
  induction l as [|e l IH]; intros acc; cbn [fold_left sum_of_key fold_right].
  - lia.
  - rewrite IH, get_or0_add_entry. fold (sum_of_key k l).
    destruct (String.eqb k (fst e)); lia.
Qed.

Lemma values_sum_fold_add l : forall acc,
  values_sum (fold_left add_entry l acc) = values_sum acc + sum_values l.
Proof.
  induction l as [|e l IH]; intros acc; cbn [fold_left sum_values fold_right].
  - lia.
  - rewrite IH. unfold add_entry. rewrite values_sum_set.
    fold (sum_values l). lia.
Qed.

Lemma get_or0_nonneg o k : Forall (fun e => 0 <= snd e) o -> 0 <= get_or0 o k.
Proof.
  unfold get_or0. induction 1 as [|[k' v'] o Hx _ IH]; cbn [get]; [lia|].
  destruct (String.eqb k k'); [exact Hx|exact IH].
Qed.

Lemma set_nonneg o k v :
  Forall (fun e => 0 <= snd e) o -> 0 <= v ->
  Forall (fun e => 0 <= snd e) (set o k v).
Proof.
  intros Ho Hv. induction Ho as [|[k' v'] o Hx Ho IH]; cbn [set].
  - now repeat constructor.
  - destruct (String.eqb k k'); constructor; auto.
Qed.

Lemma nonneg_fold_add l : forall acc,
  Forall (fun e => 0 <= snd e) acc -> Forall (fun e => 0 <= snd e) l ->
  Forall (fun e => 0 <= snd e) (fold_left add_entry l acc).
Proof.
  induction l as [|e l IH]; intros acc Hacc Hl; cbn [fold_left]; [exact Hacc|].
  inversion Hl; subst. apply IH; [|assumption].
  unfold add_entry. apply set_nonneg; [exact Hacc|].
  pose proof (get_or0_nonneg acc (fst e) Hacc). lia.
Qed.

Lemma fresh_incl seen ks k : In k (fresh seen ks) -> In k ks.
Proof.
  revert seen. induction ks as [|k' ks IH]; intros seen; cbn [fresh]; [auto|].
  destruct (existsb (String.eqb k') seen).
  - intros H. right. now apply (IH seen).
  - intros [<-|H]; [now left|right; now apply (IH (seen ++ [k']))].
Qed.

Lemma tallied_selected sel proj visible :
  Forall (fun e => selected sel (fst e) = true) (tallied sel proj visible).
Proof.
  unfold tallied. rewrite Forall_forall. intros e He.
  apply in_flat_map in He. destruct He as (loc & _ & He).
  now apply filter_In in He.
Qed.

Lemma sum_of_key_nonneg k l :
  Forall (fun e => 0 <= snd e) l -> 0 <= sum_of_key k l <= sum_values l.
Proof.
  unfold sum_of_key, sum_values.
  induction 1 as [|e l He _ IH]; cbn [fold_right]; [lia|].
  destruct (String.eqb k (fst e)); lia.
Qed.

Lemma exact_tally_spec pairs :
  exact_tally pairs = true ->
  Forall (fun e => 0 <= snd e) pairs /\ sum_values pairs < 2 ^ 53.
Proof.
  unfold exact_tally. rewrite andb_true_iff, forallb_forall, Z.leb_le.
  intros [Hall Hsum]. split.
  - apply Forall_forall. intros e He. specialize (Hall e He).
    apply andb_true_iff in Hall. destruct Hall as [_ Hall]. now apply Z.leb_le.
  - change (2 ^ 53) with (MAX_SAFE_INTEGER + 1). lia.
Qed.

Lemma exact_tally_perm l1 l2 :
  Permutation l1 l2 -> exact_tally l1 = true -> exact_tally l2 = true.
Proof.
  unfold exact_tally. intros Hp. rewrite !andb_true_iff, !forallb_forall.
  intros [Hall Hsum]. split.
  - intros e He. apply Hall. eapply Permutation_in; [symmetry; exact Hp|exact He].
  - now rewrite <- (sum_values_perm _ _ Hp).
Qed.

Lemma accumulate_from k l :
  Forall (fun e => 0 <= snd e) l ->
  forall s, 0 <= s -> s + sum_of_key k l < 2 ^ 53 ->
  fold_left (accumulate k) l (Some (JSNumber.num s))
  = Some (JSNumber.num (s + sum_of_key k l)).
Proof.
  induction 1 as [|e l He Hl IH]; intros s Hs Hb; cbn [fold_left].
  - unfold sum_of_key. cbn [fold_right]. now rewrite Z.add_0_r.
  - pose proof (sum_of_key_nonneg k l Hl) as Hk.
    assert (E : sum_of_key k (e :: l)
                = if String.eqb k (fst e) then snd e + sum_of_key k l
                  else sum_of_key k l) by reflexivity.
    rewrite E in Hb |- *. unfold accumulate at 2. destruct (String.eqb k (fst e)).
    + rewrite Binary64.or_zero_num, Binary64.num_add by lia.
      rewrite IH by lia. do 2 f_equal. lia.
    + now apply IH.
Qed.

(** A key without entries stays [undefined]. *)
Lemma accumulated_absent k pairs :
  ~ In k (map fst pairs) -> accumulated k pairs = None.
Proof.
  unfold accumulated. induction pairs as [|e l IH]; cbn [fold_left map]; [reflexivity|].
  intros Hn. unfold accumulate at 2. destruct (String.eqb k (fst e)) eqn:E.
  - apply String.eqb_eq in E. exfalso. apply Hn. left. now symmetry.
  - apply IH. intros H. apply Hn. now right.
Qed.

(** On the entries of [exact_tally] the sums of the code are the sums of the
    integers: every partial sum is below [2^53], where binary64 is exact. *)
Lemma accumulated_exact k pairs :
  exact_tally pairs = true -> In k (map fst pairs) ->
  accumulated k pairs = Some (JSNumber.num (sum_of_key k pairs)).
Proof.
  intros H. apply exact_tally_spec in H. destruct H as [Hall Hsum].
  pose proof (sum_of_key_nonneg k pairs Hall) as Hk.
  assert (Hb : sum_of_key k pairs < 2 ^ 53) by lia. clear Hsum Hk.
  unfold accumulated.
  induction Hall as [|e l He Hl IH]; cbn [fold_left map]; [intros []|].
  pose proof (sum_of_key_nonneg k l Hl) as Hk.
  assert (E : sum_of_key k (e :: l)
              = if String.eqb k (fst e) then snd e + sum_of_key k l
                else sum_of_key k l) by reflexivity.
  rewrite E in Hb |- *. unfold accumulate at 2.
  destruct (String.eqb k (fst e)) eqn:Ek.
  - intros _. cbn [JSNumber.or_zero].
    change 0%float with (JSNumber.num 0).
    rewrite Binary64.num_add by lia. cbn [Z.add].
    now apply accumulate_from.
  - intros [H|H]; [apply String.eqb_neq in Ek; congruence|]. now apply IH.
Qed.

(** The first five of the sorted entries of the totals are a leaderboard. *)
Lemma top5_leaderboard sel pairs :
  Forall (fun e => selected sel (fst e) = true) pairs ->
  leaderboard sel pairs (fold_left add_entry pairs [])
    (top5 (fold_left add_entry pairs [])).
Proof.
  intros Hsel. set (totals := fold_left add_entry pairs []).
  assert (Hwf : wf totals) by (apply wf_fold_add; constructor).
  assert (Hkeys : keys totals = first_seen (map fst pairs))
    by (unfold totals; now rewrite keys_fold_add).
  pose proof (sort_desc_sorted (entries totals)) as Hsorted.
  assert (Hperm : Permutation (sort_desc (entries totals)) totals)
    by (rewrite sort_desc_perm; apply entries_perm).
  unfold top5. constructor.
  - rewrite length_firstn. now rewrite (Permutation_length Hperm).
  - now apply firstn_sorted.
  - intros k v Hin.
    assert (Hin' : In (k, v) (sort_desc (entries totals))).
    { rewrite <- (firstn_skipn 5). apply in_or_app. now left. }
    clear Hin. pose proof (Permutation_in _ Hperm Hin') as Hin.
    assert (Hk : In k (keys totals)).
    { unfold keys. change k with (fst (k, v)). now apply in_map. }
    split.
    + rewrite Hkeys in Hk. apply fresh_incl in Hk.
      apply in_map_iff in Hk. destruct Hk as (e & <- & He).
      rewrite Forall_forall in Hsel. now apply Hsel.
    + pose proof (get_or0_fold_add k pairs []) as Hg. fold totals in Hg.
      unfold get_or0 at 1 in Hg. rewrite (In_get _ _ _ Hwf Hin) in Hg.
      cbn in Hg. exact Hg.
  - exists (skipn 5 (sort_desc (entries totals))). split.
    + now rewrite firstn_skipn.
    + rewrite <- (firstn_skipn 5 (sort_desc (entries totals))) in Hsorted.
      apply StronglySorted_app_inv in Hsorted. destruct Hsorted as [_ H].
      rewrite Forall_forall in H |- *. intros r Hr.
      rewrite Forall_forall. intros e He.
      specialize (H e He). rewrite Forall_forall in H. exact (H r Hr).
  - intros a b Hab Heq.
    apply (precedes_app _ (skipn 5 (sort_desc (entries totals)))) in Hab.
    rewrite firstn_skipn in Hab.
    apply (precedes_filter (fun x => snd x =? snd a)) in Hab;
      [|apply Z.eqb_refl|now rewrite Heq, Z.eqb_refl].
    rewrite sort_desc_stable in Hab. apply precedes_unfilter in Hab.
    split; [exact Hab|]. rewrite <- Hkeys.
    now apply EntriesOrder.entries_order.
  - exact Hkeys.
Qed.

(** A row of the leaderboard names a key of the tallied entries. *)
Lemma top5_keys_pairs pairs k v :
  In (k, v) (top5 (fold_left add_entry pairs [])) -> In k (map fst pairs).
Proof.
  intros Hin. unfold top5 in Hin.
  assert (Hin' : In (k, v) (sort_desc (entries (fold_left add_entry pairs [])))).
  { rewrite <- (firstn_skipn 5). apply in_or_app. now left. }
  apply (Permutation_in _ (sort_desc_perm _)) in Hin'.
  apply (Permutation_in _ (entries_perm _)) in Hin'.
  apply (fresh_incl []).
  change (fresh [] (map fst pairs)) with (keys [] ++ fresh (keys []) (map fst pairs)).
  rewrite <- (keys_fold_add pairs []). unfold keys.
  change k with (fst (k, v)). now apply in_map.
Qed.

Lemma sum_values_firstn n l :
  Forall (fun e => 0 <= snd e) l -> sum_values (firstn n l) <= sum_values l.
Proof.
  intros H. rewrite <- (firstn_skipn n l) at 2. rewrite sum_values_app.
  assert (0 <= sum_values (skipn n l)); [|lia].
  apply sum_values_nonneg. rewrite Forall_forall in H |- *.
  intros e He. apply H. rewrite <- (firstn_skipn n l). apply in_or_app. now right.
Qed.

(** The leaderboard does not exceed the totals of the locations it is
    computed from, when their breakdowns are not negative and do not exceed
    their totals. *)
Lemma top5_bounded sel proj visible :
  Forall (fun loc => Forall (fun e => 0 <= snd e) (proj loc)
                     /\ values_sum (proj loc) <= totalVotes loc) visible ->
  sum_values (top5 (board sel proj visible)) <= sum_totalVotes visible.
Proof.
  intros Hv.
  assert (Hsum : sum_values (tallied sel proj visible) <= sum_totalVotes visible).
  { unfold tallied. induction Hv as [|loc visible [Hn Hle] _ IH];
      cbn [flat_map sum_totalVotes fold_right]; [cbn; lia|].
    rewrite sum_values_app. fold (sum_totalVotes visible).
    assert (sum_values (filter (fun e => selected sel (fst e)) (entries (proj loc)))
            <= values_sum (proj loc)); [|lia].
    etransitivity; [apply sum_values_filter|].
    - rewrite Forall_forall in Hn |- *. intros e He. apply Hn.
      now apply (Permutation_in _ (entries_perm (proj loc))).
    - rewrite (sum_values_perm _ _ (entries_perm (proj loc))). reflexivity. }
  assert (Hpairs : Forall (fun e => 0 <= snd e) (tallied sel proj visible)).
  { unfold tallied. rewrite Forall_forall in Hv |- *. intros e He.
    apply in_flat_map in He. destruct He as (loc & Hloc & He).
    apply filter_In in He. destruct He as [He _].
    apply (Permutation_in _ (entries_perm (proj loc))) in He.
    destruct (Hv loc Hloc) as [Hn _]. rewrite Forall_forall in Hn. now apply Hn. }
  rewrite board_tallied. unfold top5.
  set (totals := fold_left add_entry (tallied sel proj visible) []).
  assert (Hperm : Permutation (sort_desc (entries totals)) totals)
    by (rewrite sort_desc_perm; apply entries_perm).
  assert (Hnn : Forall (fun e => 0 <= snd e) totals)
    by (apply nonneg_fold_add; [constructor|exact Hpairs]).
  etransitivity; [apply sum_values_firstn|].
  - rewrite Forall_forall in Hnn |- *. intros e He. apply Hnn.
    now apply (Permutation_in _ Hperm).
  - rewrite (sum_values_perm _ _ Hperm).
    pose proof (values_sum_fold_add (tallied sel proj visible) []) as Hs.
    fold totals in Hs. unfold values_sum in Hs at 1. unfold sum_values at 1.
    cbn in Hs. rewrite Hs. exact Hsum.
Qed.

Lemma selected_specific sel k : sel <> ALL -> selected sel k = true -> k = sel.
Proof.
  unfold selected. intros Hne H. apply orb_true_iff in H.
  destruct H as [H|H]; apply String.eqb_eq in H; congruence.
Qed.

Lemma totals_no_index pairs :
  Forall (fun e => is_index e = false) pairs ->
  Forall (fun e => is_index e = false) (fold_left add_entry pairs []).
Proof.
  intros H. rewrite Forall_forall in H |- *. intros e He.
  assert (Hk : In (fst e) (keys (fold_left add_entry pairs [])))
    by (unfold keys; now apply in_map).
  rewrite keys_fold_add in Hk. apply fresh_incl in Hk.
  apply in_map_iff in Hk. destruct Hk as (e' & Hfst & He').
  specialize (H e' He'). unfold is_index in *. now rewrite <- Hfst.
Qed.

(** C4, as the code has it.  On locations whose tallied keys name no
    property of [Object.prototype] and whose tallied values are not negative
    and sum to a safe integer, for every filter state, each of the two lists
    of [summarize] has at most five entries, is sorted non-increasing by
    value, holds for each of its keys the sum of the values visited under
    that key in the filtered view, and is a greatest part of the totals.
    Entries of equal value are in the order in which [Object.entries] lists
    the totals: an array index before every other key, two array indices in
    ascending numeric order, and two other keys in first-seen order; that
    order is the first-seen order when no key is an array index.  When a
    specific party or candidate is selected only that key is in the list.
    When the breakdown of every location is not negative and does not exceed
    its total, the party list sums to at most the total votes of the view.
    The value of a row is, as a Number, what the additions of the code
    accumulate under its key in binary64. *)
Theorem summarize_leaderboards :
  forall (data : list LocationData) (filters : FilterState),
  let visible := filteredData data filters in
  let result := summarize data filters in
  let totals := totals_of filters visible in
  let party_pairs := tallied (party filters) parties visible in
  let candidate_pairs := tallied (candidate filters) candidates visible in
  exact_tally party_pairs = true ->
  exact_tally candidate_pairs = true ->
  ((List.length (topParties result) <= 5)%nat
   /\ (List.length (topCandidates result) <= 5)%nat)
  /\ leaderboard (party filters) party_pairs (fst totals) (topParties result)
  /\ leaderboard (candidate filters) candidate_pairs (snd totals) (topCandidates result)
  /\ (party filters <> ALL ->
      forall e, In e (topParties result) -> fst e = party filters)
  /\ (candidate filters <> ALL ->
      forall e, In e (topCandidates result) -> fst e = candidate filters)
  /\ (Forall (fun e => is_index e = false) party_pairs ->
      entries (fst totals) = fst totals)
  /\ (Forall (fun e => is_index e = false) candidate_pairs ->
      entries (snd totals) = snd totals)
  /\ (Forall (fun loc => Forall (fun e => 0 <= snd e) (parties loc)
                         /\ values_sum (parties loc) <= totalVotes loc) data ->
      sum_values (topParties result) <= sum_totalVotes visible)
  /\ (forall k v, In (k, v) (topParties result) ->
      accumulated k party_pairs = Some (JSNumber.num v))
  /\ (forall k v, In (k, v) (topCandidates result) ->
      accumulated k candidate_pairs = Some (JSNumber.num v)).
Proof.
  intros data filters. cbv zeta. intros Hdp Hdc. unfold summarize, analytics.
  rewrite totals_of_boards. cbn [fst snd topParties topCandidates].
  rewrite !board_tallied.
  pose proof (top5_leaderboard (party filters) _
                (tallied_selected (party filters) parties
                   (filteredData data filters))) as HP.
  pose proof (top5_leaderboard (candidate filters) _
                (tallied_selected (candidate filters) candidates
                   (filteredData data filters))) as HC.
  split; [|split; [exact HP|split; [exact HC|]]].
  - split.
    + rewrite (lb_length _ _ _ _ HP). apply Nat.le_min_l.
    + rewrite (lb_length _ _ _ _ HC). apply Nat.le_min_l.
  - split; [|split; [|split; [|split; [|split; [|split]]]]].
    + intros Hne [k v] Hin. cbn [fst].
      destruct (lb_sums _ _ _ _ HP k v Hin) as [Hsel _].
      now apply selected_specific in Hsel.
    + intros Hne [k v] Hin. cbn [fst].
      destruct (lb_sums _ _ _ _ HC k v Hin) as [Hsel _].
      now apply selected_specific in Hsel.
    + intros Hni. now apply entries_no_index, totals_no_index.
    + intros Hni. now apply entries_no_index, totals_no_index.
    + intros Hinv. rewrite <- board_tallied. apply top5_bounded.
      rewrite filteredData_filter. rewrite Forall_forall in Hinv |- *.
      intros loc Hloc. apply filter_In in Hloc. now apply Hinv.
    + intros k v Hin. pose proof (top5_keys_pairs _ _ _ Hin) as Hk.
      destruct (lb_sums _ _ _ _ HP k v Hin) as [_ ->].
      now apply accumulated_exact.
    + intros k v Hin. pose proof (top5_keys_pairs _ _ _ Hin) as Hk.
      destruct (lb_sums _ _ _ _ HC k v Hin) as [_ ->].
      now apply accumulated_exact.
Qed.

(** Witness of C4: in [filter_example], filtered on the Liberal party and
    on the candidate Ana, each list holds the selected key only, the totals
    have no array-index key, and the party list is within the total votes;
    in [index_tie_example] the party [2] is listed before the party [10],
    which was seen first and has as many votes, and the code holds the
    Number 3 for it. *)
Lemma summarize_leaderboards_witness :
  (Forall (fun e => fst e = "PARTIDO LIBERAL")
     (topParties (summarize filter_example ana_filter))
   /\ Forall (fun e => fst e = "Ana")
     (topCandidates (summarize filter_example ana_filter))
   /\ entries (fst (totals_of ana_filter (filteredData filter_example ana_filter)))
      = fst (totals_of ana_filter (filteredData filter_example ana_filter))
   /\ entries (snd (totals_of ana_filter (filteredData filter_example ana_filter)))
      = snd (totals_of ana_filter (filteredData filter_example ana_filter))
   /\ sum_values (topParties (summarize filter_example ana_filter))
      <= sum_totalVotes (filteredData filter_example ana_filter))
  /\ (precedes (topParties (summarize index_tie_example default_filters))
        ("2", 3) ("10", 3)
      /\ enumerated_before ["10"; "2"; "B"] "2" "10"
      /\ enumerated_before ["10"; "2"; "B"] "10" "B"
      /\ accumulated "2"
           (tallied ALL parties (filteredData index_tie_example default_filters))
         = Some (JSNumber.num 3)).
Proof.
  split.
  - destruct (summarize_leaderboards filter_example ana_filter eq_refl eq_refl)
      as (_ & _ & _ & HP & HC & HiP & HiC & Hb & _).
    split; [|split; [|split; [|split]]].
    + apply Forall_forall, HP. discriminate.
    + apply Forall_forall, HC. discriminate.
    + apply HiP. repeat constructor.
    + apply HiC. repeat constructor.
    + apply Hb. repeat constructor; cbn; lia.
  - destruct (summarize_leaderboards index_tie_example default_filters
                eq_refl eq_refl) as (_ & HP & _ & _ & _ & _ & _ & _ & Hacc & _).
    assert (H1 : precedes (topParties (summarize index_tie_example default_filters))
                   ("2", 3) ("10", 3)).
    { exists [], [], [("B", 3)]. reflexivity. }
    assert (H2 : precedes (topParties (summarize index_tie_example default_filters))
                   ("10", 3) ("B", 3)).
    { exists [("2", 3)], [], []. reflexivity. }
    split; [exact H1|]. split; [|split].
    + exact (proj2 (lb_ties _ _ _ _ HP _ _ H1 eq_refl)).
    + exact (proj2 (lb_ties _ _ _ _ HP _ _ H2 eq_refl)).
    + apply Hacc. now left.
Defined.

(** C4 as stated fails: [B] is seen first and [7] second, both with one
    vote, and the party list has [7] before [B], because [Object.entries]
    lists an array-index key before the others. *)
Lemma tie_not_in_first_seen_order :
  first_seen (map fst (tallied ALL parties
                         (filteredData numeric_key_example default_filters)))
  = ["B"; "7"]
  /\ topParties (summarize numeric_key_example default_filters)
     = [("7", 1); ("B", 1)].
Proof. split; vm_compute; reflexivity. Qed.

End AnalyticsFacts.

(* ================================================================= *)
(** * Part III: further properties of the code *)

(* ----------------------------------------------------------------- *)
(** ** More on the filter engine *)

Lemma filter_subsequence_weaken {A} (f g : A -> bool) (l : list A) :
  (forall x, g x = true -> f x = true) ->
  subsequence (filter g l) (filter f l).
Proof.
  intros Himp. induction l as [|x l IH]; cbn [filter]; [constructor|].
  destruct (g x) eqn:Eg.
  - rewrite (Himp x Eg). now constructor.
  - destruct (f x); [now constructor|exact IH].
Qed.

Lemma keep_weaken strict loose d :
  at_least_as_strict strict loose -> keep strict d = true -> keep loose d = true.
Proof.
  intros (Hm & Hp & Hc). rewrite !keep_spec. intros (Kp & Kc & Km).
  split; [|split].
  - destruct Hp as [Hp|Hp]; [now left|].
    destruct Kp as [Kp|Kp]; [left; congruence|right; now rewrite Hp].
  - destruct Hc as [Hc|Hc]; [now left|].
    destruct Kc as [Kc|Kc]; [left; congruence|right; now rewrite Hc].
  - lia.
Qed.

(** Tightening the filters (a higher threshold, a specific party or
    candidate instead of the sentinel) only removes locations: the stricter
    view is the looser view with some locations left out. *)
Theorem tightening_only_removes :
  forall (data : list LocationData) (strict loose : FilterState),
  at_least_as_strict strict loose ->
  subsequence (filteredData data strict) (filteredData data loose).
Proof.
  intros data strict loose H. rewrite !filteredData_filter.
  apply filter_subsequence_weaken. intros d. now apply keep_weaken.
Qed.

Lemma tightening_only_removes_witness :
  subsequence (filteredData filter_example ana_filter)
    (filteredData filter_example default_filters).
Proof.
  apply (tightening_only_removes filter_example ana_filter default_filters).
  unfold at_least_as_strict. cbn. split; [lia|split; now left].
Defined.

(** Filtering a filtered view by other filters keeps the locations that
    pass both, whichever filters come first. *)
Theorem filters_compose :
  forall (data : list LocationData) (f1 f2 : FilterState),
  filteredData (filteredData data f1) f2
  = filter (fun d => keep f1 d && keep f2 d) data
  /\ filteredData (filteredData data f1) f2
     = filteredData (filteredData data f2) f1.
Proof.
  intros data f1 f2. rewrite !filteredData_filter, !filter_andb. split.
  - reflexivity.
  - apply filter_ext. intros d. apply andb_comm.
Qed.

(* ----------------------------------------------------------------- *)
(** ** More on the live stream *)

Lemma tick_preserves_refl loc : tick_preserves loc loc.
Proof. unfold tick_preserves. repeat split; lia. Qed.

Lemma tick_preserves_trans a b c :
  tick_preserves a b -> tick_preserves b c -> tick_preserves a c.
Proof.
  unfold tick_preserves.
  intros (H1 & N1 & P1 & La1 & Ln1 & Pa1 & C1 & W1)
         (H2 & N2 & P2 & La2 & Ln2 & Pa2 & C2 & W2).
  repeat split; try congruence. lia.
Qed.

Lemma Forall2_tick_refl data : Forall2 tick_preserves data data.
Proof. induction data; constructor; auto using tick_preserves_refl. Qed.

Lemma Forall2_tick_trans l1 l2 : Forall2 tick_preserves l1 l2 ->
  forall l3, Forall2 tick_preserves l2 l3 -> Forall2 tick_preserves l1 l3.
Proof.
  induction 1 as [|a b l1 l2 Hab _ IH]; intros l3 H23; inversion H23; subst.
  - constructor.
  - constructor; [eapply tick_preserves_trans; eassumption|now apply IH].
Qed.

Lemma keep_after_tick filters old new :
  tick_preserves old new -> keep filters old = true -> keep filters new = true.
Proof.
  intros (Ht & _ & _ & _ & _ & Hp & Hc & _).
  unfold keep, has_party, has_candidate, reaches. rewrite Hp, Hc.
  rewrite !andb_true_iff, !Z.leb_le. intros [[H1 H2] H3].
  repeat split; auto. lia.
Qed.

Lemma view_after_ticks filters prev next :
  Forall2 tick_preserves prev next ->
  subsequence (map location_key (filter (keep filters) prev))
              (map location_key (filter (keep filters) next)).
Proof.
  induction 1 as [|old new prev next H _ IH]; cbn [filter map]; [constructor|].
  assert (Hk : location_key new = location_key old).
  { unfold location_key. destruct H as (_ & -> & -> & _). reflexivity. }
  destruct (keep filters old) eqn:E.
  - rewrite (keep_after_tick filters old new H E). cbn [map]. rewrite Hk.
    now constructor.
  - destruct (keep filters new); cbn [map]; [now constructor|exact IH].
Qed.

(** A tick never takes a location out of the filtered view: the keys of the
    view before the tick are among the keys of the view after it, in the
    same order. *)
Theorem tick_keeps_the_view :
  forall (draws : nat -> Draw) (prev : list LocationData) (filters : FilterState),
  (forall i, draw_ok (draws i)) ->
  subsequence (map location_key (filteredData prev filters))
              (map location_key (filteredData (tick draws prev) filters)).
Proof.
  intros draws prev filters Hd. rewrite !filteredData_filter.
  apply view_after_ticks, tick_from_preserves, Hd.
Qed.

Lemma tick_keeps_the_view_witness :
  subsequence (map location_key (filteredData filter_example liberal_filter))
    (map location_key
       (filteredData (tick alternate_draws filter_example) liberal_filter)).
Proof.
  apply (tick_keeps_the_view alternate_draws filter_example liberal_filter).
  intros i. unfold draw_ok, alternate_draws. cbn. lia.
Defined.

Lemma covered_after_tick old new : tick_preserves old new -> covered old -> covered new.
Proof.
  unfold covered. intros (Ht & _ & _ & _ & _ & Hp & _) H. rewrite Hp. lia.
Qed.

Lemma app_step_preserves s e :
  event_ok e -> Forall2 tick_preserves (aggregatedData s) (aggregatedData (app_step s e)).
Proof.
  intros He. destruct e as [| | |draws]; cbn [app_step].
  - apply Forall2_tick_refl.
  - apply Forall2_tick_refl.
  - destruct (is_stream (dataSource s)); apply Forall2_tick_refl.
  - destruct (interval_installed s); [|apply Forall2_tick_refl].
    cbn [aggregatedData]. apply tick_from_preserves, He.
Qed.

Lemma app_run_preserves events : forall s,
  Forall event_ok events ->
  Forall2 tick_preserves (aggregatedData s) (aggregatedData (app_run s events)).
Proof.
  unfold app_run.
  induction events as [|e events IH]; intros s Hok; cbn [fold_left].
  - apply Forall2_tick_refl.
  - inversion Hok as [|? ? He Hrest]; subst.
    apply (Forall2_tick_trans _ _ (app_step_preserves s e He)).
    now apply IH.
Qed.

(** Over any run of clicks and timer events, from any state, every location
    keeps its place, its key and its breakdowns, and its total never goes
    down; a breakdown by party that did not exceed the total still does not
    exceed it. *)
Theorem run_only_raises_totals :
  forall (s : AppState) (events : list AppEvent),
  Forall event_ok events ->
  Forall2 tick_preserves (aggregatedData s) (aggregatedData (app_run s events))
  /\ map location_key (aggregatedData (app_run s events))
     = map location_key (aggregatedData s)
  /\ (Forall covered (aggregatedData s) ->
      Forall covered (aggregatedData (app_run s events))).
Proof.
  intros s events Hok.
  pose proof (app_run_preserves events s Hok) as H.
  split; [exact H|]. split; [now apply tick_preserves_keys|].
  intros Hc. induction H as [|old new l1 l2 Hon _ IH]; [constructor|].
  inversion Hc; subst. constructor; [eapply covered_after_tick; eassumption|auto].
Qed.

Lemma app_run_invariant events : forall s,
  (isLive s = true -> dataSource s = E14_STREAM) ->
  isLive (app_run s events) = true -> dataSource (app_run s events) = E14_STREAM.
Proof.
  unfold app_run.
  induction events as [|e events IH]; intros s Hs; cbn [fold_left]; [exact Hs|].
  apply IH. destruct e as [| | |draws]; cbn [app_step].
  - cbn. discriminate.
  - cbn. reflexivity.
  - destruct (is_stream (dataSource s)) eqn:E; [|exact Hs].
    cbn. intros _. now destruct (dataSource s).
  - destruct (interval_installed s); [cbn|]; exact Hs.
Qed.

(** From the initial state, whatever is clicked, the stream is live only
    when the source is the E-14 stream: the interval is installed exactly
    when [isLive] holds, a click on the CSV button stops it, and while the
    stream is not live a timer event changes nothing. *)
Theorem live_only_on_the_stream :
  forall (data : list LocationData) (events : list AppEvent),
  let s := app_run (app_start data) events in
  (isLive s = true -> dataSource s = E14_STREAM)
  /\ interval_installed s = isLive s
  /\ interval_installed (app_step s ClickCSV) = false
  /\ (isLive s = false -> forall draws, app_step s (TimerFires draws) = s).
Proof.
  intros data events s.
  assert (H : isLive s = true -> dataSource s = E14_STREAM).
  { apply app_run_invariant. cbn. discriminate. }
  split; [exact H|]. split; [|split].
  - unfold interval_installed. destruct (isLive s); [|reflexivity].
    now rewrite H.
  - reflexivity.
  - intros Hl draws. cbn [app_step]. unfold interval_installed. now rewrite Hl.
Qed.

(** A run for worked examples: the stream is chosen and started, the timer
    fires, and the CSV source is chosen again. *)
Lemma run_only_raises_totals_witness :
  map location_key
    (aggregatedData
       (app_run (app_start filter_example)
          [ClickE14; ClickToggle; TimerFires alternate_draws; ClickCSV]))
  = map location_key filter_example.
Proof.
  refine (proj1 (proj2 (run_only_raises_totals (app_start filter_example)
            [ClickE14; ClickToggle; TimerFires alternate_draws; ClickCSV] _))).
  repeat constructor; unfold draw_ok, alternate_draws; cbn; lia.
Defined.

Lemma live_only_on_the_stream_witness :
  app_step
    (app_run (app_start filter_example) [ClickE14; ClickToggle; ClickCSV; ClickE14])
    (TimerFires alternate_draws)
  = app_run (app_start filter_example) [ClickE14; ClickToggle; ClickCSV; ClickE14].
Proof.
  refine (proj2 (proj2 (proj2 (live_only_on_the_stream filter_example
            [ClickE14; ClickToggle; ClickCSV; ClickE14]))) _ alternate_draws).
  reflexivity.
Defined.

(* ----------------------------------------------------------------- *)
(** ** More on the analytics *)

Module AnalyticsMore.
Import JSObject JSObjectFacts AnalyticsFacts.

Lemma Permutation_filter {A} (f : A -> bool) l1 l2 :
  Permutation l1 l2 -> Permutation (filter f l1) (filter f l2).
Proof.
  induction 1 as [|x l1 l2 _ IH|x y l|l1 l2 l3 _ IH1 _ IH2]; cbn [filter].
  - constructor.
  - destruct (f x); [now constructor|exact IH].
  - destruct (f x), (f y); try reflexivity. apply perm_swap.
  - now transitivity (filter f l2).
Qed.

Lemma filter_absent_key p o :
  ~ In p (keys o) -> filter (fun e => String.eqb p (fst e)) o = [].
Proof.
  unfold keys. induction o as [|[k v] o IH]; cbn [filter map fst]; [reflexivity|].
  intros Hn. destruct (String.eqb p k) eqn:E.
  - apply String.eqb_eq in E. subst. exfalso. apply Hn. now left.
  - apply IH. intros H. apply Hn. now right.
Qed.

(** In a well-formed object one entry at most has a given key. *)
Lemma filter_present_key p v o :
  wf o -> get o p = Some v ->
  filter (fun e => String.eqb p (fst e)) o = [(p, v)].
Proof.
  unfold wf, keys. induction o as [|[k w] o IH]; cbn [get filter map fst];
    [discriminate|].
  intros Hwf Hg. inversion Hwf as [|? ? Hnotin Hwf']; subst.
  destruct (String.eqb p k) eqn:E.
  - apply String.eqb_eq in E. subst k. injection Hg as ->.
    now rewrite (filter_absent_key p o Hnotin).
  - now apply IH.
Qed.

Lemma selected_specific_eqb sel k :
  sel <> ALL -> selected sel k = String.eqb sel k.
Proof.
  intros Hne. unfold selected. apply String.eqb_neq in Hne. now rewrite Hne.
Qed.

(** Under a specific selection a location that has the key contributes that
    one entry. *)
Lemma tallied_specific sel proj visible :
  sel <> ALL ->
  Forall (fun loc => wf (proj loc) /\ 0 < get_or0 (proj loc) sel) visible ->
  tallied sel proj visible = map (fun loc => (sel, get_or0 (proj loc) sel)) visible.
Proof.
  intros Hne. unfold tallied.
  induction 1 as [|loc visible [Hwf Hpos] _ IH]; cbn [flat_map map]; [reflexivity|].
  rewrite IH.
  assert (Hone : filter (fun e => selected sel (fst e)) (entries (proj loc))
                 = [(sel, get_or0 (proj loc) sel)]).
  { unfold get_or0 in *. destruct (get (proj loc) sel) as [v|] eqn:Hg; [|lia].
    apply Permutation_length_1_inv.
    rewrite <- (filter_present_key sel v (proj loc) Hwf Hg).
    rewrite (filter_ext (fun e => selected sel (fst e))
               (fun e => String.eqb sel (fst e)))
      by (intros e; now apply selected_specific_eqb).
    symmetry. apply Permutation_filter, entries_perm. }
  rewrite Hone. reflexivity.
Qed.

Lemma fold_add_one_key sel (f : LocationData -> Z) visible : forall a,
  fold_left add_entry (map (fun loc => (sel, f loc)) visible) [(sel, a)]
  = [(sel, a + fold_right (fun loc acc => f loc + acc) 0 visible)].
Proof.
  induction visible as [|loc visible IH]; intros a; cbn [map fold_left fold_right].
  - now rewrite Z.add_0_r.
  - unfold add_entry at 2. cbn [fst snd set]. unfold get_or0. cbn [get].
    rewrite String.eqb_refl. rewrite IH. f_equal. f_equal. lia.
Qed.

Lemma top5_singleton e : top5 [e] = [e].
Proof.
  unfold top5, entries. cbn [filter]. destruct (is_index e); reflexivity.
Qed.

Lemma single_row sel proj visible :
  sel <> ALL ->
  Forall (fun loc => wf (proj loc) /\ 0 < get_or0 (proj loc) sel) visible ->
  top5 (board sel proj visible)
  = match visible with
    | [] => []
    | _ => [(sel, fold_right (fun loc acc => get_or0 (proj loc) sel + acc) 0 visible)]
    end.
Proof.
  intros Hne Hv. rewrite board_tallied, (tallied_specific sel proj visible Hne Hv).
  destruct visible as [|loc visible]; [reflexivity|].
  cbn [map fold_left]. unfold add_entry at 2. cbn [fst snd set].
  unfold get_or0 at 1. cbn [get].
  rewrite fold_add_one_key, top5_singleton. reflexivity.
Qed.

Lemma single_sum sel proj visible :
  sel <> ALL ->
  Forall (fun loc => wf (proj loc) /\ 0 < get_or0 (proj loc) sel) visible ->
  sum_of_key sel (tallied sel proj visible)
  = fold_right (fun loc acc => get_or0 (proj loc) sel + acc) 0 visible.
Proof.
  intros Hne Hv. rewrite (tallied_specific sel proj visible Hne Hv).
  unfold sum_of_key. clear Hv.
  induction visible as [|loc visible IH]; cbn [map fold_right fst snd]; [reflexivity|].
  now rewrite String.eqb_refl, IH.
Qed.

Lemma single_accumulated sel proj visible :
  sel <> ALL ->
  Forall (fun loc => wf (proj loc) /\ 0 < get_or0 (proj loc) sel) visible ->
  exact_tally (tallied sel proj visible) = true ->
  accumulated sel (tallied sel proj visible)
  = match visible with
    | [] => None
    | _ => Some (JSNumber.num
             (fold_right (fun loc acc => get_or0 (proj loc) sel + acc) 0 visible))
    end.
Proof.
  intros Hne Hv Hex. destruct visible as [|loc visible]; [reflexivity|].
  rewrite (accumulated_exact _ _ Hex).
  - do 2 f_equal. now apply single_sum.
  - rewrite (tallied_specific sel proj _ Hne Hv). now left.
Qed.

Lemma visible_has_party data filters :
  party filters <> ALL ->
  Forall (fun loc => wf (parties loc)) data ->
  Forall (fun loc => wf (parties loc) /\ 0 < get_or0 (parties loc) (party filters))
    (filteredData data filters).
Proof.
  intros Hne Hwf. rewrite filteredData_filter. rewrite Forall_forall in Hwf |- *.
  intros loc Hin. apply filter_In in Hin. destruct Hin as [Hin Hk].
  split; [now apply Hwf|].
  unfold keep in Hk. apply String.eqb_neq in Hne. rewrite Hne in Hk.
  cbn [orb] in Hk. apply andb_true_iff in Hk. destruct Hk as [Hk _].
  apply andb_true_iff in Hk. destruct Hk as [Hk _].
  unfold has_party in Hk. now apply Z.ltb_lt.
Qed.

Lemma visible_has_candidate data filters :
  candidate filters <> ALL ->
  Forall (fun loc => wf (candidates loc)) data ->
  Forall (fun loc => wf (candidates loc)
                     /\ 0 < get_or0 (candidates loc) (candidate filters))
    (filteredData data filters).
Proof.
  intros Hne Hwf. rewrite filteredData_filter. rewrite Forall_forall in Hwf |- *.
  intros loc Hin. apply filter_In in Hin. destruct Hin as [Hin Hk].
  split; [now apply Hwf|].
  unfold keep in Hk. apply String.eqb_neq in Hne. rewrite Hne in Hk.
  cbn [orb] in Hk. apply andb_true_iff in Hk. destruct Hk as [Hk _].
  apply andb_true_iff in Hk. destruct Hk as [_ Hk].
  unfold has_candidate in Hk. now apply Z.ltb_lt.
Qed.

(** When a specific party is selected the party list has one row, the
    selected party with the sum of its votes over the filtered locations,
    and no row when no location passes the filter; that sum is, as a Number,
    what the additions of the code accumulate in binary64.  The same holds
    for a selected candidate.  The mappings are objects: no key occurs
    twice; and the tallied entries are those of [exact_tally]: the selected
    name is no property of [Object.prototype] and its votes sum to a safe
    integer. *)
Theorem selection_gives_one_row :
  forall (data : list LocationData) (filters : FilterState),
  let visible := filteredData data filters in
  (party filters <> ALL ->
   Forall (fun loc => wf (parties loc)) data ->
   exact_tally (tallied (party filters) parties visible) = true ->
   topParties (summarize data filters)
   = match visible with
     | [] => []
     | _ => [(party filters,
              fold_right (fun loc acc => get_or0 (parties loc) (party filters) + acc)
                0 visible)]
     end
   /\ accumulated (party filters) (tallied (party filters) parties visible)
      = match visible with
        | [] => None
        | _ => Some (JSNumber.num
                 (fold_right
                    (fun loc acc => get_or0 (parties loc) (party filters) + acc)
                    0 visible))
        end)
  /\ (candidate filters <> ALL ->
      Forall (fun loc => wf (candidates loc)) data ->
      exact_tally (tallied (candidate filters) candidates visible) = true ->
      topCandidates (summarize data filters)
      = match visible with
        | [] => []
        | _ => [(candidate filters,
                 fold_right
                   (fun loc acc => get_or0 (candidates loc) (candidate filters) + acc)
                   0 visible)]
        end
      /\ accumulated (candidate filters)
           (tallied (candidate filters) candidates visible)
         = match visible with
           | [] => None
           | _ => Some (JSNumber.num
                    (fold_right
                       (fun loc acc =>
                          get_or0 (candidates loc) (candidate filters) + acc)
                       0 visible))
           end).
Proof.
  intros data filters. cbv zeta. unfold summarize, analytics.
  rewrite totals_of_boards. cbn [fst snd topParties topCandidates].
  split; intros Hne Hwf Hex.
  - pose proof (visible_has_party data filters Hne Hwf) as Hv. split.
    + now apply single_row.
    + now apply single_accumulated.
  - pose proof (visible_has_candidate data filters Hne Hwf) as Hv. split.
    + now apply single_row.
    + now apply single_accumulated.
Qed.

Lemma selection_gives_one_row_witness :
  topParties (summarize filter_example ana_filter) = [("PARTIDO LIBERAL", 20)]
  /\ topCandidates (summarize filter_example ana_filter) = [("Ana", 20)].
Proof.
  destruct (selection_gives_one_row filter_example ana_filter) as [HP HC].
  split.
  - refine (proj1 (HP _ _ _)); [discriminate| |reflexivity].
    repeat constructor; cbn; intuition discriminate.
  - refine (proj1 (HC _ _ _)); [discriminate| |reflexivity].
    repeat constructor; cbn; intuition discriminate.
Defined.

Lemma NoDup_firstn {A} n (l : list A) : NoDup l -> NoDup (firstn n l).
Proof.
  intros H. rewrite <- (firstn_skipn n l) in H. now apply NoDup_app_remove_r in H.
Qed.

Lemma top5_keys_distinct pairs :
  NoDup (map fst (top5 (fold_left add_entry pairs []))).
Proof.
  set (totals := fold_left add_entry pairs []).
  assert (Hwf : wf totals) by (apply wf_fold_add; constructor).
  unfold top5. rewrite <- firstn_map. apply NoDup_firstn.
  apply (Permutation_NoDup (l := keys totals)); [|exact Hwf].
  unfold keys. apply Permutation_map. symmetry.
  rewrite sort_desc_perm. apply entries_perm.
Qed.

Lemma top5_keys_tallied pairs k v :
  In (k, v) (top5 (fold_left add_entry pairs [])) -> In k (map fst pairs).
Proof.
  intros Hin. set (totals := fold_left add_entry pairs []) in *.
  assert (Hin' : In (k, v) totals).
  { unfold top5 in Hin.
    assert (H : In (k, v) (sort_desc (entries totals)))
      by (rewrite <- (firstn_skipn 5); apply in_or_app; now left).
    apply (Permutation_in _ (sort_desc_perm _)) in H.
    now apply (Permutation_in _ (entries_perm _)) in H. }
  assert (Hk : In k (keys totals))
    by (unfold keys; change k with (fst (k, v)); now apply in_map).
  unfold totals in Hk. rewrite keys_fold_add in Hk. now apply fresh_incl in Hk.
Qed.

Lemma tallied_origin sel proj visible k :
  In k (map fst (tallied sel proj visible)) ->
  exists loc v, In loc visible /\ In (k, v) (proj loc).
Proof.
  intros Hk. apply in_map_iff in Hk. destruct Hk as ([k' v] & Hfst & Hin).
  cbn in Hfst. subst k'. unfold tallied in Hin.
  apply in_flat_map in Hin. destruct Hin as (loc & Hloc & Hin).
  apply filter_In in Hin. destruct Hin as [Hin _].
  exists loc, v. split; [exact Hloc|].
  now apply (Permutation_in _ (entries_perm (proj loc))).
Qed.

(** On the entries of [exact_tally], no party and no candidate is listed
    twice, and every row names a key that has an entry in a location of the
    filtered view. *)
Theorem leaderboard_rows_are_distinct :
  forall (data : list LocationData) (filters : FilterState),
  let visible := filteredData data filters in
  exact_tally (tallied (party filters) parties visible) = true ->
  exact_tally (tallied (candidate filters) candidates visible) = true ->
  NoDup (map fst (topParties (summarize data filters)))
  /\ NoDup (map fst (topCandidates (summarize data filters)))
  /\ Forall (fun row => exists loc v, In loc visible /\ In (fst row, v) (parties loc))
       (topParties (summarize data filters))
  /\ Forall (fun row => exists loc v, In loc visible /\ In (fst row, v) (candidates loc))
       (topCandidates (summarize data filters)).
Proof.
  intros data filters. cbv zeta. intros _ _. unfold summarize, analytics.
  rewrite totals_of_boards. cbn [fst snd topParties topCandidates].
  rewrite !board_tallied.
  split; [apply top5_keys_distinct|]. split; [apply top5_keys_distinct|].
  split; apply Forall_forall; intros [k v] Hin; cbn [fst];
    apply top5_keys_tallied in Hin; now apply tallied_origin in Hin.
Qed.

Lemma leaderboard_rows_are_distinct_witness :
  NoDup (map fst (topParties (summarize filter_example default_filters)))
  /\ NoDup (map fst (topCandidates (summarize filter_example default_filters))).
Proof.
  destruct (leaderboard_rows_are_distinct filter_example default_filters
              eq_refl eq_refl) as (HP & HC & _).
  split; [exact HP|exact HC].
Defined.

Lemma sum_of_key_perm k l1 l2 :
  Permutation l1 l2 -> sum_of_key k l1 = sum_of_key k l2.
Proof.
  unfold sum_of_key. induction 1 as [|x l1 l2 _ IH|x y l|l1 l2 l3 _ IH1 _ IH2];
    cbn [fold_right].
  - reflexivity.
  - now rewrite IH.
  - destruct (String.eqb k (fst x)), (String.eqb k (fst y)); lia.
  - congruence.
Qed.

Lemma board_value sel proj visible k :
  get_or0 (board sel proj visible) k = sum_of_key k (tallied sel proj visible).
Proof. rewrite board_tallied, get_or0_fold_add. reflexivity. Qed.

Lemma accumulated_perm k pairs1 pairs2 :
  Permutation pairs1 pairs2 -> exact_tally pairs1 = true ->
  accumulated k pairs1 = accumulated k pairs2.
Proof.
  intros Hp Hex.
  destruct (in_dec string_dec k (map fst pairs1)) as [Hin|Hin].
  - rewrite (accumulated_exact _ _ Hex Hin).
    rewrite (accumulated_exact _ _ (exact_tally_perm _ _ Hp Hex)).
    + do 2 f_equal. now apply sum_of_key_perm.
    + eapply Permutation_in; [apply Permutation_map; exact Hp|exact Hin].
  - rewrite (accumulated_absent _ _ Hin). symmetry. apply accumulated_absent.
    intros H. apply Hin.
    eapply Permutation_in; [apply Permutation_map; symmetry; exact Hp|exact H].
Qed.

(** On the entries of [exact_tally], where every partial sum is exact in
    whatever order it is taken, the sum kept for a key does not depend on
    the order of the locations: two views with the same locations give every
    party and every candidate the same total, in the totals of the model
    and in the Numbers that the additions of the code accumulate. *)
Theorem totals_ignore_the_order :
  forall (filters : FilterState) (view1 view2 : list LocationData) (k : string),
  Permutation view1 view2 ->
  exact_tally (tallied (party filters) parties view1) = true ->
  exact_tally (tallied (candidate filters) candidates view1) = true ->
  (get_or0 (fst (totals_of filters view1)) k = get_or0 (fst (totals_of filters view2)) k
   /\ get_or0 (snd (totals_of filters view1)) k
      = get_or0 (snd (totals_of filters view2)) k)
  /\ accumulated k (tallied (party filters) parties view1)
     = accumulated k (tallied (party filters) parties view2)
  /\ accumulated k (tallied (candidate filters) candidates view1)
     = accumulated k (tallied (candidate filters) candidates view2).
Proof.
  intros filters view1 view2 k Hp Hep Hec.
  assert (Pp : Permutation (tallied (party filters) parties view1)
                 (tallied (party filters) parties view2))
    by (unfold tallied; apply Permutation_flat_map, Hp).
  assert (Pc : Permutation (tallied (candidate filters) candidates view1)
                 (tallied (candidate filters) candidates view2))
    by (unfold tallied; apply Permutation_flat_map, Hp).
  split; [|split].
  - rewrite !totals_of_boards. cbn [fst snd]. rewrite !board_value.
    split; now apply sum_of_key_perm.
  - now apply accumulated_perm.
  - now apply accumulated_perm.
Qed.

Lemma totals_ignore_the_order_witness :
  get_or0 (fst (totals_of default_filters filter_example)) "PACTO HISTÓRICO"
  = get_or0 (fst (totals_of default_filters (rev filter_example))) "PACTO HISTÓRICO"
  /\ accumulated "PACTO HISTÓRICO" (tallied ALL parties filter_example)
     = accumulated "PACTO HISTÓRICO" (tallied ALL parties (rev filter_example)).
Proof.
  destruct (totals_ignore_the_order default_filters filter_example
              (rev filter_example) "PACTO HISTÓRICO"
              (Permutation_rev filter_example) eq_refl eq_refl)
    as ((H1 & _) & H2 & _).
  split; [exact H1|exact H2].
Defined.

End AnalyticsMore.

(* ----------------------------------------------------------------- *)
(** ** The option lists *)

Section OptionFacts.

Lemma fresh_complete ks : forall seen k,
  In k ks -> In k seen \/ In k (fresh seen ks).
Proof.
  induction ks as [|x ks IH]; intros seen k Hin; [contradiction|].
  cbn [fresh]. destruct (existsb (String.eqb x) seen) eqn:E.
  - destruct Hin as [->|Hin]; [|now apply IH].
    left. now apply JSObjectFacts.existsb_eqb_In.
  - destruct Hin as [->|Hin]; [right; now left|].
    destruct (IH (seen ++ [x]) k Hin) as [H|H]; [|right; now right].
    apply in_app_or in H. destruct H as [H|[->|[]]]; [now left|right; now left].
Qed.

Lemma fresh_new ks : forall seen,
  NoDup (fresh seen ks) /\ forall k, In k (fresh seen ks) -> ~ In k seen.
Proof.
  induction ks as [|x ks IH]; intros seen; cbn [fresh].
  - split; [constructor|intros k []].
  - destruct (existsb (String.eqb x) seen) eqn:E; [apply IH|].
    destruct (IH (seen ++ [x])) as [Hnd Hnew]. split.
    + constructor; [|exact Hnd]. intros Hin. apply (Hnew x Hin).
      apply in_or_app. right. now left.
    + intros k [<-|Hin].
      * intros Hs. apply JSObjectFacts.existsb_eqb_In in Hs. congruence.
      * intros Hs. apply (Hnew k Hin). apply in_or_app. now left.
Qed.

Lemma unit_rank_inj x y : unit_rank x = unit_rank y -> x = y.
Proof.
  unfold unit_rank. intros H.
  rewrite <- (ascii_N_embedding x), <- (ascii_N_embedding y). f_equal.
  pose proof (N_ascii_bounded x). pose proof (N_ascii_bounded y).
  destruct (N_of_ascii x <? 238)%N eqn:E1, (N_of_ascii y <? 238)%N eqn:E2;
    destruct (N_of_ascii x <? 240)%N eqn:E3, (N_of_ascii y <? 240)%N eqn:E4;
    rewrite ?N.ltb_lt, ?N.ltb_ge in *; lia.
Qed.

Lemma code_unit_leb_total a : forall b,
  code_unit_leb a b = false -> code_unit_leb b a = true.
Proof.
  induction a as [|x a IH]; intros [|y b]; cbn [code_unit_leb]; try discriminate;
    try reflexivity.
  rewrite (Ascii.eqb_sym y x). destruct (Ascii.eqb x y) eqn:E; [apply IH|].
  intros H. apply N.ltb_ge in H. apply N.ltb_lt.
  assert (unit_rank x <> unit_rank y); [|lia].
  intros Hr. apply unit_rank_inj in Hr. apply Ascii.eqb_neq in E. contradiction.
Qed.

(** Below [U+E000] the order of the code units is the order of the bytes. *)
Lemma code_unit_leb_bytes a : forall b,
  below_E000 a = true -> below_E000 b = true ->
  code_unit_leb a b = String.leb a b.
Proof.
  unfold String.leb.
  induction a as [|x a IH]; intros [|y b]; cbn [below_E000 code_unit_leb String.compare];
    try reflexivity.
  rewrite !andb_true_iff, !N.ltb_lt. intros [Hx Ha] [Hy Hb].
  unfold Ascii.compare.
  destruct (Ascii.eqb x y) eqn:E.
  - apply Ascii.eqb_eq in E. subst y. rewrite N.compare_refl. now apply IH.
  - unfold unit_rank.
    destruct (N.ltb_spec (N_of_ascii x) 238); [|lia].
    destruct (N.ltb_spec (N_of_ascii y) 238); [|lia].
    destruct (N.compare_spec (N_of_ascii x) (N_of_ascii y)) as [Heq|Hlt|Hgt].
    + exfalso. apply Ascii.eqb_neq in E. apply E.
      now rewrite <- (ascii_N_embedding x), <- (ascii_N_embedding y), Heq.
    + now apply N.ltb_lt.
    + apply N.ltb_ge. lia.
Qed.

Lemma insert_string_perm k l : Permutation (insert_string k l) (k :: l).
Proof.
  induction l as [|x l IH]; cbn [insert_string]; [reflexivity|].
  destruct (code_unit_leb k x); [reflexivity|].
  rewrite IH. apply perm_swap.
Qed.

Lemma Array_sort_perm l : Permutation (Array_sort l) l.
Proof.
  induction l as [|x l IH]; cbn [Array_sort fold_right]; [reflexivity|].
  fold (Array_sort l). rewrite insert_string_perm. now constructor.
Qed.

Lemma insert_string_sorted k l :
  Sorted (fun a b => code_unit_leb a b = true) l ->
  Sorted (fun a b => code_unit_leb a b = true) (insert_string k l).
Proof.
  induction 1 as [|x l Hs IH Hx]; cbn [insert_string].
  - repeat constructor.
  - destruct (code_unit_leb k x) eqn:E.
    + constructor; [now constructor|now constructor].
    + assert (Hxk : code_unit_leb x k = true) by now apply code_unit_leb_total.
      constructor; [exact IH|].
      destruct l as [|y l]; cbn [insert_string]; [now constructor|].
      destruct (code_unit_leb k y); constructor; [exact Hxk|].
      now inversion Hx.
Qed.

Lemma Array_sort_sorted l :
  Sorted (fun a b => code_unit_leb a b = true) (Array_sort l).
Proof.
  induction l as [|x l IH]; cbn [Array_sort fold_right]; [constructor|].
  now apply insert_string_sorted.
Qed.

Lemma unique_sorted_spec xs :
  NoDup (unique_sorted xs)
  /\ Sorted (fun a b => code_unit_leb a b = true) (unique_sorted xs)
  /\ forall k, In k (unique_sorted xs) <-> In k xs.
Proof.
  unfold unique_sorted, first_seen. split; [|split].
  - apply (Permutation_NoDup (l := fresh [] xs)).
    + symmetry. apply Array_sort_perm.
    + apply fresh_new.
  - apply Array_sort_sorted.
  - intros k. split; intros H.
    + apply (Permutation_in _ (Array_sort_perm _)) in H.
      now apply AnalyticsFacts.fresh_incl in H.
    + apply (Permutation_in _ (Permutation_sym (Array_sort_perm _))).
      destruct (fresh_complete xs [] k H) as [[]|H']. exact H'.
Qed.

End OptionFacts.

(** The options of the party box are exactly the party names of the raw
    records, each once, in ascending order of their UTF-16 code units; the
    same holds for the options of the candidate box.  Between names whose
    characters are all below [U+E000] that order is the order of their
    UTF-8 bytes. *)
Theorem select_options_are_the_names : forall rawData : list VoteRecord,
  (NoDup (uniqueParties rawData)
   /\ Sorted (fun a b => code_unit_leb a b = true) (uniqueParties rawData)
   /\ forall p, In p (uniqueParties rawData)
                <-> exists r, In r rawData /\ partyName r = p)
  /\ (NoDup (uniqueCandidates rawData)
      /\ Sorted (fun a b => code_unit_leb a b = true) (uniqueCandidates rawData)
      /\ forall c, In c (uniqueCandidates rawData)
                   <-> exists r, In r rawData /\ candidateName r = c)
  /\ (forall a b : string, below_E000 a = true -> below_E000 b = true ->
      code_unit_leb a b = String.leb a b).
Proof.
  intros rawData. unfold uniqueParties, uniqueCandidates.
  split; [|split].
  - destruct (unique_sorted_spec (map partyName rawData)) as (Hn & Hs & Hi).
    split; [exact Hn|]. split; [exact Hs|].
    intros p. rewrite Hi, in_map_iff. split; intros (r & H1 & H2); eauto.
  - destruct (unique_sorted_spec (map candidateName rawData)) as (Hn & Hs & Hi).
    split; [exact Hn|]. split; [exact Hs|].
    intros c. rewrite Hi, in_map_iff. split; intros (r & H1 & H2); eauto.
  - intros a b. apply code_unit_leb_bytes.
Qed.

(** In [option_example] the face, whose first code unit is the surrogate
    [D83D], comes before the fullwidth letter [FF21], although its first
    byte [F0] is above the first byte [EF] of the letter; [PACTO] comes
    before [PACTO HISTÓRICO]. *)
Lemma select_options_are_the_names_witness :
  uniqueParties option_example
  = ["ALIANZA VERDE"; "PACTO"; "PACTO HISTÓRICO"; grinning_face; fullwidth_A]
  /\ uniqueCandidates option_example = ["Ana"; "Luis"]
  /\ Sorted (fun a b => code_unit_leb a b = true) (uniqueParties option_example)
  /\ code_unit_leb "PACTO" "PACTO HISTÓRICO" = String.leb "PACTO" "PACTO HISTÓRICO".
Proof.
  destruct (select_options_are_the_names option_example) as ((_ & Hs & _) & _ & Hb).
  split; [reflexivity|]. split; [reflexivity|]. split; [exact Hs|].
  apply Hb; reflexivity.
Defined.

(* ----------------------------------------------------------------- *)
(** ** What is drawn for a marker *)

Module MarkerFacts.
Import VoteMap Marker.

(** The alert label of the tooltip and of the popup, the pulsing class and
    the thick white border are shown for a location exactly when the view is
    the audit view and the location is anomalous; in the other views nothing
    pulses and the border has the colour of the fill, even for a location
    that the party view paints in the alert colour. *)
Theorem alert_shown_for_anomalies_only :
  forall (viewMode : ViewMode) (st : Stats) (loc : LocationData),
  let v := getVisuals viewMode st loc in
  let flagged := viewMode = audit /\ isAnomaly st loc = true in
  (shows_alert viewMode v = true <-> flagged)
  /\ (className (pathOptions viewMode v) = "animate-pulse" <-> flagged)
  /\ (weight (pathOptions viewMode v) = 2 <-> flagged)
  /\ (~ flagged ->
      path_color (pathOptions viewMode v) = fillColor (pathOptions viewMode v)
      /\ weight (pathOptions viewMode v) = 1
      /\ className (pathOptions viewMode v) = ""
      /\ tooltip viewMode loc v = (name loc ++ " ")%string)
  /\ (flagged ->
      path_color (pathOptions viewMode v) = "#ffffff"
      /\ tooltip viewMode loc v = (name loc ++ " (AUDIT ALERT)")%string).
Proof.
  intros viewMode st loc. cbv zeta.
  destruct viewMode; unfold getVisuals, pathOptions, shows_alert, tooltip;
    cbn [is_audit stroke color opacity andb className weight path_color fillColor].
  - intuition congruence.
  - intuition congruence.
  - destruct (isAnomaly st loc); cbn; intuition congruence.
Qed.

Lemma firstn_sort_greatest n (l : list (string * Z)) :
  StronglySorted by_value_desc (firstn n (sort_desc l))
  /\ exists rest, Permutation (firstn n (sort_desc l) ++ rest) l
       /\ Forall (fun r => Forall (fun e => snd r <= snd e) (firstn n (sort_desc l))) rest.
Proof.
  pose proof (sort_desc_sorted l) as Hs. split; [now apply firstn_sorted|].
  exists (skipn n (sort_desc l)). split.
  - rewrite firstn_skipn. apply sort_desc_perm.
  - rewrite <- (firstn_skipn n (sort_desc l)) in Hs.
    apply StronglySorted_app_inv in Hs. destruct Hs as [_ H].
    rewrite Forall_forall in H |- *. intros r Hr.
    rewrite Forall_forall. intros e He.
    specialize (H e He). rewrite Forall_forall in H. exact (H r Hr).
Qed.

(** The popup of a location lists the three greatest entries of its party
    mapping in the party view, and of its candidate mapping in the other
    views (all of them when there are fewer), greatest first: every entry
    that is left out has a value no greater than any entry shown. *)
Theorem popup_rows_are_the_greatest :
  forall (viewMode : ViewMode) (loc : LocationData),
  let rows := popup_rows viewMode loc in
  let source := popup_source viewMode loc in
  (source = if is_audit viewMode then candidates loc
            else match viewMode with party_mode => parties loc | _ => candidates loc end)
  /\ List.length rows = Nat.min 3 (List.length source)
  /\ StronglySorted by_value_desc rows
  /\ exists rest, Permutation (rows ++ rest) source
       /\ Forall (fun r => Forall (fun e => snd r <= snd e) rows) rest.
Proof.
  intros viewMode loc. cbv zeta. unfold popup_rows.
  split; [now destruct viewMode|]. split.
  - rewrite length_firstn.
    rewrite (Permutation_length (sort_desc_perm _)).
    now rewrite (Permutation_length (JSObjectFacts.entries_perm _)).
  - destruct (firstn_sort_greatest 3 (JSObject.entries (popup_source viewMode loc)))
      as (Hs & rest & Hp & Hr).
    split; [exact Hs|]. exists rest. split; [|exact Hr].
    rewrite Hp. apply JSObjectFacts.entries_perm.
Qed.

(** The colour of the party view is always one of the six colours of the
    table, and the tokens are tried in the order of the table: a winning
    party that contains [CENTRO] gets the colour of the first entry whatever
    else it contains, one without [CENTRO] that contains [HISTÓRICO] gets the
    colour of the second, and a winning party that is empty gets the
    default colour. *)
Theorem party_color_is_a_table_color : forall w : string,
  In (party_color w) (map snd PARTY_COLORS)
  /\ (JSString.includes w "CENTRO" = true -> party_color w = "#0ea5e9")
  /\ (JSString.includes w "CENTRO" = false ->
      JSString.includes w "HISTÓRICO" = true -> party_color w = "#9333ea")
  /\ party_color "" = "#64748b".
Proof.
  intros w.
  assert (Hw : JSString.includes w "CENTRO" = true \/ JSString.includes w "HISTÓRICO" = true ->
               JSString.or_else (Some w) "DEFAULT" = w).
  { intros H. destruct w; [destruct H as [H|H]; discriminate H|reflexivity]. }
  split; [|split; [|split]].
  - rewrite VoteMapFacts.party_color_first_match.
    destruct (find _ PARTY_COLORS) as [[k c]|] eqn:E.
    + apply find_some in E. destruct E as [E _].
      change c with (snd (k, c)). now apply in_map.
    + cbn. tauto.
  - intros H. rewrite VoteMapFacts.party_color_first_match, Hw by now left.
    unfold PARTY_COLORS. cbn [find fst]. unfold matches at 1.
    change (token "PARTIDO CENTRO DEMOCRÁTICO") with (Some "CENTRO").
    cbn [JSString.to_string]. now rewrite H.
  - intros H1 H2. rewrite VoteMapFacts.party_color_first_match, Hw by now right.
    unfold PARTY_COLORS. cbn [find fst]. unfold matches at 1.
    change (token "PARTIDO CENTRO DEMOCRÁTICO") with (Some "CENTRO").
    cbn [JSString.to_string]. rewrite H1. unfold matches at 1.
    change (token "PACTO HISTÓRICO") with (Some "HISTÓRICO").
    cbn [JSString.to_string]. now rewrite H2.
  - vm_compute. reflexivity.
Qed.

Lemma party_color_is_a_table_color_witness :
  party_color "PARTIDO LIBERAL DE CENTRO" = "#0ea5e9"
  /\ party_color "PACTO HISTÓRICO" = "#9333ea".
Proof.
  split.
  - refine (proj1 (proj2 (party_color_is_a_table_color _)) _). reflexivity.
  - refine (proj1 (proj2 (proj2 (party_color_is_a_table_color _))) _ _); reflexivity.
Defined.

End MarkerFacts.

(* ----------------------------------------------------------------- *)
(** ** The filter controls *)

Lemma filter_run_minVotes events : forall filters,
  minVotes (fold_left filter_step events filters) = minVotes filters.
Proof.
  induction events as [|e events IH]; intros filters; [reflexivity|].
  cbn [fold_left]. rewrite IH. now destruct e.
Qed.

(** No control sets the minimum of votes: after any sequence of selections
    it is still 0, and on locations whose totals are not negative the
    filtered view is what the party stage and the candidate stage leave. *)
Theorem threshold_is_never_raised :
  forall (events : list FilterEvent) (aggregatedData : list LocationData),
  Forall (fun l => 0 <= totalVotes l) aggregatedData ->
  let filters := filter_run events in
  minVotes filters = 0
  /\ filteredData aggregatedData filters
     = candidate_stage filters (party_stage filters aggregatedData).
Proof.
  intros events aggregatedData Hpos. cbv zeta.
  assert (Hm : minVotes (filter_run events) = 0).
  { unfold filter_run. now rewrite filter_run_minVotes. }
  split; [exact Hm|].
  rewrite filteredData_filter, candidate_stage_filter, party_stage_filter, filter_andb.
  apply filter_ext_in. intros d Hd. unfold keep, reaches. rewrite Hm.
  rewrite Forall_forall in Hpos. specialize (Hpos d Hd).
  apply Z.leb_le in Hpos. rewrite Hpos. now rewrite andb_true_r.
Qed.

Lemma threshold_is_never_raised_witness :
  minVotes (filter_run [SelectParty "PARTIDO LIBERAL"; SelectCandidate "Ana"]) = 0
  /\ filteredData filter_example
       (filter_run [SelectParty "PARTIDO LIBERAL"; SelectCandidate "Ana"])
     = candidate_stage (filter_run [SelectParty "PARTIDO LIBERAL"; SelectCandidate "Ana"])
         (party_stage (filter_run [SelectParty "PARTIDO LIBERAL"; SelectCandidate "Ana"])
            filter_example).
Proof.
  apply (threshold_is_never_raised
           [SelectParty "PARTIDO LIBERAL"; SelectCandidate "Ana"] filter_example).
  repeat constructor; cbn; lia.
Defined.

(* ----------------------------------------------------------------- *)
(** ** The messages of the model *)

Module MarkdownFacts.
Import JSString Markdown.

Lemma no_asterisk_cons c s :
  includes (String c s) "*" = false -> Ascii.eqb "*" c = false /\ includes s "*" = false.
Proof.
  cbn [includes starts_with]. rewrite andb_true_r. intros H.
  apply orb_false_elim in H. exact H.
Qed.

Lemma includes_cons_false c s n :
  includes (String c s) n = false ->
  starts_with n (String c s) = false /\ includes s n = false.
Proof. cbn [includes]. intros H. now apply orb_false_elim in H. Qed.

Lemma drop_length n s : (String.length (drop n s) <= String.length s)%nat.
Proof.
  revert s. induction n as [|n IH]; intros [|c s]; cbn; try lia.
  specialize (IH s). lia.
Qed.

Lemma close_length s : forall body rest,
  close s = Some (body, rest) -> (String.length rest < String.length s)%nat.
Proof.
  induction s as [|c s IH]; intros body rest; [discriminate|].
  cbn [close]. destruct (at_marker (String c s)).
  - intros H. injection H as _ <-.
    destruct s; cbn [String.length]; lia.
  - destruct (at_line_terminator (String c s)); [discriminate|].
    destruct (close s) as [[b r]|]; [|discriminate].
    intros H. injection H as _ <-. specialize (IH b r eq_refl).
    cbn [String.length]. lia.
Qed.

Lemma length_append s : forall t,
  String.length (s ++ t) = (String.length s + String.length t)%nat.
Proof. induction s as [|c s IH]; intros t; cbn; [reflexivity|now rewrite IH]. Qed.

(** The fuel does not matter once it reaches the length of the text. *)
Lemma replace_bold_fuel f1 : forall f2 s,
  (String.length s <= f1)%nat -> (String.length s <= f2)%nat ->
  replace_bold f1 s = replace_bold f2 s.
Proof.
  induction f1 as [|f1 IH]; intros f2 s H1 H2.
  - destruct s; [|cbn in H1; lia]. now destruct f2.
  - destruct s as [|c s]; [now destruct f2|].
    destruct f2 as [|f2]; [cbn in H2; lia|].
    cbn [String.length] in H1, H2. cbn [replace_bold].
    destruct (at_marker (String c s)) eqn:Em.
    + destruct (close (drop 2 (String c s))) as [[b r]|] eqn:Ec.
      * apply close_length in Ec. pose proof (drop_length 1 s).
        change (drop 2 (String c s)) with (drop 1 s) in Ec. rewrite (IH f2 r) by lia. reflexivity.
      * now rewrite (IH f2 s) by lia.
    + now rewrite (IH f2 s) by lia.
Qed.

Lemma render_bold_fuel f s :
  (String.length s <= f)%nat -> replace_bold f s = render_bold s.
Proof. intros H. unfold render_bold. now apply replace_bold_fuel. Qed.

Lemma replace_bold_plain f : forall s,
  includes s "**" = false -> replace_bold f s = s.
Proof.
  induction f as [|f IH]; intros s H; [reflexivity|].
  destruct s as [|c s]; [reflexivity|].
  apply includes_cons_false in H. destruct H as [H1 H2].
  cbn [replace_bold]. unfold at_marker. rewrite H1. now rewrite IH.
Qed.

(** A prefix without asterisks is copied. *)
Lemma replace_bold_prefix pre : forall f s,
  includes pre "*" = false ->
  replace_bold (String.length pre + f)%nat (pre ++ s) = (pre ++ replace_bold f s)%string.
Proof.
  induction pre as [|c pre IH]; intros f s H; [reflexivity|].
  apply no_asterisk_cons in H. destruct H as [Hc Hp].
  cbn [String.length Nat.add String.append replace_bold].
  unfold at_marker. cbn [starts_with]. rewrite Hc. cbn [andb].
  now rewrite IH.
Qed.

Lemma starts_with_before_asterisk p : forall b t,
  includes p "*" = false ->
  starts_with p (b ++ String "*" t) = starts_with p b.
Proof.
  induction p as [|x p IH]; intros b t H; [reflexivity|].
  apply no_asterisk_cons in H. destruct H as [Hx Hp].
  destruct b as [|y b]; cbn [String.append starts_with].
  - rewrite Ascii.eqb_sym, Hx. reflexivity.
  - now rewrite IH.
Qed.

Lemma at_line_terminator_before_asterisk c b t :
  at_line_terminator (String c (b ++ String "*" t)) = at_line_terminator (String c b).
Proof.
  unfold at_line_terminator.
  change (String c (b ++ String "*" t)) with ((String c b) ++ String "*" t)%string.
  now rewrite !starts_with_before_asterisk by reflexivity.
Qed.

Lemma close_segment body : forall rest,
  includes body "*" = false -> has_line_terminator body = false ->
  close (body ++ "**" ++ rest) = Some (body, rest).
Proof.
  induction body as [|c body IH]; intros rest Hs Hl; [reflexivity|].
  apply no_asterisk_cons in Hs. destruct Hs as [Hc Hb].
  cbn [has_line_terminator] in Hl. apply orb_false_elim in Hl. destruct Hl as [Hl1 Hl2].
  cbn [String.append close]. unfold at_marker. cbn [starts_with]. rewrite Hc. cbn [andb].
  change ("**" ++ rest)%string with (String "*" (String "*" rest)).
  rewrite at_line_terminator_before_asterisk, Hl1.
  change (String "*" (String "*" rest)) with ("**" ++ rest)%string.
  now rewrite IH.
Qed.

Lemma replace_bold_segment f body rest :
  includes body "*" = false -> has_line_terminator body = false ->
  replace_bold (S f) ("**" ++ body ++ "**" ++ rest)
  = ("<strong>" ++ body ++ "</strong>" ++ replace_bold f rest)%string.
Proof.
  intros Hb Hl. pose proof (close_segment body rest Hb Hl) as Hc.
  set (X := (body ++ "**" ++ rest)%string) in *.
  change ("**" ++ X)%string with (String "*" (String "*" X)).
  unfold replace_bold; fold replace_bold.
  change (at_marker (String "*" (String "*" X))) with true.
  change (drop 2 (String "*" (String "*" X))) with X.
  cbv iota. rewrite Hc. reflexivity.
Qed.

(** A message that starts with text free of asterisks, followed by a pair
    of double asterisks around a body free of asterisks and of line
    terminators, is rendered as that text, the body between [<strong>] and
    [</strong>], and the rendering of what follows the closing pair. *)
Theorem bold_segment_is_replaced : forall pre body rest : string,
  includes pre "*" = false ->
  includes body "*" = false ->
  has_line_terminator body = false ->
  render_bold (pre ++ "**" ++ body ++ "**" ++ rest)
  = (pre ++ "<strong>" ++ body ++ "</strong>" ++ render_bold rest)%string.
Proof.
  intros pre body rest Hp Hb Hl.
  rewrite <- (render_bold_fuel
    (String.length pre + S (String.length ("**" ++ body ++ "**" ++ rest)))%nat).
  2:{ rewrite length_append. lia. }
  rewrite replace_bold_prefix by exact Hp.
  rewrite replace_bold_segment by assumption.
  do 4 f_equal. apply render_bold_fuel.
  rewrite !length_append. lia.
Qed.

Lemma includes_asterisk_append a : forall b,
  includes (a ++ b) "*" = includes a "*" || includes b "*".
Proof.
  induction a as [|c a IH]; intros b; [reflexivity|].
  cbn [String.append includes starts_with]. now rewrite IH, orb_assoc.
Qed.

Lemma append_assoc (a b c : string) : ((a ++ b) ++ c = a ++ (b ++ c))%string.
Proof. induction a as [|x a IH]; cbn; [reflexivity|now rewrite IH]. Qed.

Lemma close_line_feed a : forall t,
  includes a "*" = false -> close (a ++ String LF t) = None.
Proof.
  induction a as [|c a IH]; intros t H; [reflexivity|].
  apply no_asterisk_cons in H. destruct H as [Hc Ha].
  cbn [String.append close]. unfold at_marker. cbn [starts_with]. rewrite Hc. cbn [andb].
  destruct (at_line_terminator _); [reflexivity|]. now rewrite IH.
Qed.

Lemma replace_bold_lone_asterisk f s :
  starts_with "*" s = false ->
  replace_bold (S f) (String "*" s) = String "*" (replace_bold f s).
Proof.
  intros H. unfold replace_bold; fold replace_bold.
  change (at_marker (String "*" s)) with (starts_with "*" s).
  now rewrite H.
Qed.

Lemma replace_bold_unclosed f s :
  close s = None ->
  replace_bold (S f) ("**" ++ s) = String "*" (replace_bold f (String "*" s)).
Proof.
  intros H. change ("**" ++ s)%string with (String "*" (String "*" s)).
  unfold replace_bold; fold replace_bold.
  change (at_marker (String "*" (String "*" s))) with true.
  change (drop 2 (String "*" (String "*" s))) with s.
  cbv iota. now rewrite H.
Qed.

(** A pair of double asterisks with a line feed between them is not a bold
    segment: the message is rendered as it is, asterisks included. *)
Theorem bold_does_not_span_lines : forall a b : string,
  includes a "*" = false ->
  includes b "*" = false ->
  render_bold ("**" ++ a ++ String LF (b ++ "**"))
  = ("**" ++ a ++ String LF (b ++ "**"))%string.
Proof.
  intros a b Ha Hb.
  set (P := (a ++ String LF b)%string).
  assert (HP : includes P "*" = false).
  { unfold P. rewrite includes_asterisk_append, Ha.
    cbn [orb includes starts_with]. rewrite Hb. reflexivity. }
  assert (E : (a ++ String LF (b ++ "**") = P ++ "**")%string).
  { unfold P. now rewrite append_assoc. }
  assert (Hs : starts_with "*" (P ++ "**") = false).
  { unfold P. destruct a as [|c a]; [reflexivity|].
    apply no_asterisk_cons in Ha. cbn [String.append starts_with].
    now rewrite (proj1 Ha). }
  rewrite <- (render_bold_fuel (S (S (String.length P + 2)))).
  2:{ rewrite E. cbn [String.append String.length]. rewrite length_append. cbn. lia. }
  rewrite replace_bold_unclosed by now apply close_line_feed.
  f_equal. rewrite E, replace_bold_lone_asterisk by exact Hs. f_equal.
  rewrite replace_bold_prefix by exact HP. reflexivity.
Qed.

(** A message without two adjacent asterisks is rendered unchanged, single
    asterisks included. *)
Theorem text_without_markers_is_kept : forall text : string,
  includes text "**" = false -> render_bold text = text.
Proof. intros text H. now apply replace_bold_plain. Qed.

Lemma bold_segment_is_replaced_witness :
  render_bold "Mesa **12** con 3 votos" = "Mesa <strong>12</strong> con 3 votos".
Proof.
  exact (bold_segment_is_replaced "Mesa " "12" " con 3 votos" eq_refl eq_refl eq_refl).
Defined.

Lemma bold_does_not_span_lines_witness :
  render_bold ("**a" ++ String LF "b**") = ("**a" ++ String LF "b**")%string.
Proof. exact (bold_does_not_span_lines "a" "b" eq_refl eq_refl). Defined.

Lemma text_without_markers_is_kept_witness :
  render_bold "2 * 3 = 6" = "2 * 3 = 6".
Proof. exact (text_without_markers_is_kept "2 * 3 = 6" eq_refl). Defined.

End MarkdownFacts.
